(** * NS-CQA, S2SRL/libbots/metalearner.py: the meta-learner

    A shallow embedding of [MetaLearner] (the two-step MAML path: [sample],
    [inner_loss], [update_params], [get_inner_loop_parameter_dict],
    [meta_update]) and of the trust-region [step] with its line search.

    The tensor library, the sequence model and the random generators are
    collaborators of the class, not part of it.  They are an interface
    ([Substrate]): the types of Python floats and of tensor objects, the
    tensor operations the class calls, and the state the collaborators keep
    (network, generators, autograd graph).  No law is assumed of the
    arithmetic, so every statement holds for IEEE floats as for exact
    numbers.  What the class itself does is modelled as written: Python
    dictionaries are objects in a heap (a name bound to a dictionary is a
    reference), loops thread their accumulators, exceptions are results. *)

From stdpp Require Import gmap strings list fin_maps pretty.
From Stdlib Require Import ZArith Ascii.
From Stdlib Require QArith.

Set Default Proof Using "Type".

(** ** Python values *)

(** [torch.device]: the two kinds the file uses ('cpu' and [.cuda()]). *)
Inductive Device := Cpu | Cuda.

Global Instance Device_eq_dec : EqDecision Device.
Proof. solve_decision. Defined.

(** The exceptions the modelled code can raise. *)
Inductive exn :=
  | TypeError | RuntimeError | IndexError | KeyError | AttributeError
  | ValueError.

Inductive result (A : Type) :=
  | Ok (a : A)
  | Raise (e : exn).
Arguments Ok {A} a.
Arguments Raise {A} e.

(** ** The collaborators *)

(** [optim.Adam(params, lr=..., eps=...)]: the outer optimizer. *)
Inductive Optimizer (F : Type) :=
  | Adam (lr eps : F).
Arguments Adam {F} lr eps.

Class Substrate := {
  (** Python floats, with the operations [inner_loss] uses on them. *)
  F : Type;
  f_zero : F;                         (* the literal 0.0 *)
  f_1e_3 : F;                         (* the literal 1e-3 *)
  fsub : F → F → F;                   (* float - float *)

  (** Tensor objects.  Two names for one object are equal terms. *)
  Tensor : Type;
  tensor_device : Tensor → Device;
  requires_grad : Tensor → bool;
  copy_to : Device → Tensor → Tensor; (* the copy [.to] makes across devices *)
  tensor_repr : Tensor → string;      (* str(tensor), for print *)
  tsub : Tensor → Tensor → Tensor;    (* tensor - tensor *)
  smul : F → Tensor → Tensor;         (* float * tensor *)
  tmul : Tensor → Tensor → Tensor;    (* tensor * tensor *)
  tneg : Tensor → Tensor;             (* -tensor *)
  tmean : Tensor → Tensor;            (* .mean(), torch.mean *)
  tcat : list Tensor → Tensor;        (* torch.cat on a non-empty list *)
  tstack : list Tensor → Tensor;      (* torch.stack on a non-empty list *)
  log_softmax : Tensor → nat → Tensor;          (* F.log_softmax(t, dim) *)
  FloatTensor : list F → Tensor;
  LongTensor : list Z → Tensor;
  index_rows : Tensor → nat → Tensor → Tensor;  (* t[range(n), idx] *)
  tensor_getitem : Tensor → nat → Tensor;       (* t[i] *)

  (** What the collaborators keep between calls: the network object, the
      random generators, the autograd graph, the optimizer's moments. *)
  Ext : Type;

  (** model.py (the network and the batch packer) and data.py. *)
  Task : Type;
  QA : Type;                          (* an entry of output_batch *)
  qa_qid : QA → string;               (* qa_info['qid'] *)
  Enc : Type;                         (* encoder hidden state *)
  MAX_TOKENS : Z;                     (* data.MAX_TOKENS *)
  net_zero_grad : option (gmap string Tensor) → Ext → Ext;
  net_named_parameters : Ext → list (string * Tensor);
  net_insert_new_parameter : gmap string Tensor → bool → Ext → Ext;
  pack_batch_no_out :
    list Task → Device → Ext → Tensor * list (list Z) * list QA;
  net_encode_context : Tensor → Ext → (Tensor * Enc) * Ext;
  net_emb : Tensor → Ext → Tensor * Ext;
  net_get_encoded_item : Enc → nat → Enc;
  net_decode_chain_argmax :
    Enc → Tensor → Z → Tensor → Z → Ext → (Tensor * list Z) * Ext;
  net_decode_chain_sampling :
    Enc → Tensor → Z → Tensor → Z → Ext → (Tensor * list Z) * Ext;

  (** random.random() *)
  random_random : Ext → F * Ext;

  (** torch.autograd: the gradient of an output with respect to one input,
      [None] when the input was not used in the graph of the output (or the
      output carries no graph); and what a call leaves behind (the graph is
      freed unless create_graph keeps it). *)
  autograd_partial : bool → Tensor → Tensor → Ext → option Tensor;
  autograd_after : bool → Tensor → Ext → Ext;
  (** What [torch.autograd.grad] raises when it is given no input at all
      ('grad requires non-empty inputs.'). *)
  autograd_no_inputs : exn;

  (** The outer optimizer and loss.backward(). *)
  optimizer_zero_grad : Optimizer F → Ext → Ext;
  tensor_backward : Tensor → Ext → Ext;
  optimizer_step : Optimizer F → Ext → Ext;
}.

(** A Python value bound to a loss: [inner_loss] returns the float literal
    0.0 on one path and a tensor on the other. *)
Inductive pyval `{Substrate} :=
  | PyFloat (x : F)
  | PyTensor (t : Tensor).

(** Modelled from the spec: utils.duplicate is not under src/; the spec calls
    a duplicate a sample with the identical token sequence. *)
Definition duplicate (s1 s2 : list Z) : bool := bool_decide (s1 = s2).

(** A reference to a Python dict: its index in the heap. *)
Abbreviation ref := nat.

Section MetaLearner.
Context `{Sub : Substrate}.

(** ** The world: collaborators' state, dictionary heap, console, log *)


Record World := mkWorld {
  w_ext : Ext;
  w_heap : list (gmap string Tensor);
  w_stdout : list string;             (* what print wrote, oldest first *)
  w_log : list string;                (* what log.info wrote, oldest first *)
}.

Definition set_ext (e : Ext) (w : World) : World :=
  mkWorld e (w_heap w) (w_stdout w) (w_log w).
Definition set_heap (h : list (gmap string Tensor)) (w : World) : World :=
  mkWorld (w_ext w) h (w_stdout w) (w_log w).

(** Computations: a world in, an exception or a value and a world out. *)
Definition M (A : Type) : Type := World → result (A * World).

Definition ret {A} (a : A) : M A := λ w, Ok (a, w).
Definition bind {A B} (m : M A) (k : A → M B) : M B :=
  λ w, match m w with
       | Ok (a, w') => k a w'
       | Raise e => Raise e
       end.
Definition raise {A} (e : exn) : M A := λ _, Raise e.

#[global] Instance M_ret : MRet M := @ret.
#[global] Instance M_bind : MBind M := λ A B k m, bind m k.

(** A call that moves the collaborators' state and returns a value. *)
Definition ext_call {A} (f : Ext → A * Ext) : M A :=
  λ w, let '(a, e) := f (w_ext w) in Ok (a, set_ext e w).
(** A call made for its effect. *)
Definition ext_do (f : Ext → Ext) : M unit :=
  λ w, Ok (tt, set_ext (f (w_ext w)) w).
(** A call that only reads. *)
Definition ext_read {A} (f : Ext → A) : M A :=
  λ w, Ok (f (w_ext w), w).

Definition print (s : string) : M unit :=
  λ w, Ok (tt, mkWorld (w_ext w) (w_heap w) (w_stdout w ++ [s]) (w_log w)).
Definition log_info (s : string) : M unit :=
  λ w, Ok (tt, mkWorld (w_ext w) (w_heap w) (w_stdout w) (w_log w ++ [s])).

(** [dict()]: a new, empty dictionary object. *)
Definition dict_new : M ref :=
  λ w, Ok (length (w_heap w), set_heap (w_heap w ++ [∅]) w).
(** [dict(pairs)]: a new dictionary object with the given entries. *)
Definition dict_of (d : gmap string Tensor) : M ref :=
  λ w, Ok (length (w_heap w), set_heap (w_heap w ++ [d]) w).
(** The dictionary a reference points to. *)
Definition dict_deref (r : ref) : M (gmap string Tensor) :=
  λ w, match w_heap w !! r with
       | Some d => Ok (d, w)
       | None => Raise AttributeError
       end.
(** [d[key]] *)
Definition dict_getitem (r : ref) (key : string) : M Tensor :=
  d ← dict_deref r;
  match d !! key with
  | Some t => mret t
  | None => raise KeyError
  end.
(** [d[key] = t], in place. *)
Definition dict_setitem (r : ref) (key : string) (t : Tensor) : M unit :=
  λ w, match w_heap w !! r with
       | Some d => Ok (tt, set_heap (<[r := <[key := t]> d]> (w_heap w)) w)
       | None => Raise AttributeError
       end.

(** [for x in l: s = body x s] *)
Fixpoint for_each {A St} (l : list A) (body : A → St → M St) (s : St) : M St :=
  match l with
  | [] => mret s
  | x :: l' => s' ← body x s; for_each l' body s'
  end.

(** ** Tensor.to and Tensor.cuda *)

(** [t.to(device=d)] returns [t] itself when it already lives on [d], and a
    copy on [d] otherwise. *)
Definition Tensor_to (d : Device) (t : Tensor) : Tensor :=
  if decide (tensor_device t = d) then t else copy_to d t.

Definition cuda (t : Tensor) : Tensor := Tensor_to Cuda t.

(** ** torch.autograd.grad(outputs, inputs, create_graph=...) *)

(** [allow_unused] is left at its default, False: an input that was not used
    in the graph is an error.  An output that is not a tensor (nor a sequence
    of tensors) is a TypeError, and an empty sequence of inputs is refused. *)
Definition autograd_grad (outputs : pyval) (inputs : list Tensor)
    (create_graph : bool) : M (list Tensor) :=
  match outputs with
  | PyFloat _ => raise TypeError
  | PyTensor o =>
      match inputs with
      | [] => raise autograd_no_inputs
      | _ :: _ =>
          λ w, match mapM (λ i, autograd_partial create_graph o i (w_ext w))
                       inputs with
               | Some grads =>
                   Ok (grads,
                       set_ext (autograd_after create_graph o (w_ext w)) w)
               | None => Raise RuntimeError
               end
      end
  end.

(** ** The class *)

Record MetaLearner := mkMetaLearner {
  device : Device;
  beg_token : Tensor;
  end_token : Z;
  adaptive : bool;
  samples : Z;
  first_order_ : bool;
  fast_lr : F;
  meta_optimizer : Optimizer F;
  dial_shown : bool;
}.

(** [__init__]: the outer optimizer is Adam over the network's parameters,
    with the given learning rate and eps=1e-3. *)
Definition MetaLearner_init (device : Device) (beg_token : Tensor)
    (end_token : Z) (adaptive : bool) (samples : Z) (first_order : bool)
    (fast_lr meta_optimizer_lr : F) (dial_shown : bool) : MetaLearner :=
  mkMetaLearner device beg_token end_token adaptive samples first_order
    fast_lr (Adam meta_optimizer_lr f_1e_3) dial_shown.

(** [meta_update]: zero_grad, backward, one optimizer step.  A float has no
    [backward]. *)
Definition meta_update (self : MetaLearner) (loss : pyval) : M unit :=
  ext_do (optimizer_zero_grad (meta_optimizer self));;
  match loss with
  | PyTensor l =>
      ext_do (tensor_backward l);;
      ext_do (optimizer_step (meta_optimizer self))
  | PyFloat _ => raise AttributeError
  end.

(** [get_inner_loop_parameter_dict]: a new dictionary holding, for each
    parameter that requires grad, [param.to(device=self.device)] (the line
    with [.clone()] is commented out in the source). *)
Definition get_inner_loop_parameter_dict (self : MetaLearner)
    (params : list (string * Tensor)) : M ref :=
  param_dict ← dict_new;
  for_each params (λ '(name, param) (_ : unit),
    if requires_grad param
    then dict_setitem param_dict name (Tensor_to (device self) param)
    else mret tt) tt;;
  mret param_dict.

(** [establish_support_set(train_data, N=0)] *)
Definition establish_support_set (train_data : Task) (N : Z) : list Task :=
  if decide (N = 0%Z) then [] ++ [train_data] else [].

(** [update_params]: the loop body prints the key, the old value, the
    gradient and the new value, and stores the new value. *)
Definition update_params_body (names_weights_copy names_grads_wrt_params : ref)
    (step_size : F) (updated_names_weights_dict : ref) (key : string)
    (_ : unit) : M unit :=
  print (key +:+ ": ");;
  print "names_weights_copy:";;
  w ← dict_getitem names_weights_copy key;
  print (tensor_repr w);;
  print "names_grads_wrt_params:";;
  g ← dict_getitem names_grads_wrt_params key;
  print (tensor_repr g);;
  w ← dict_getitem names_weights_copy key;
  g ← dict_getitem names_grads_wrt_params key;
  dict_setitem updated_names_weights_dict key (tsub w (smul step_size g));;
  print "updated_names_weights_dict:";;
  u ← dict_getitem updated_names_weights_dict key;
  print (tensor_repr u).

(** Two dictionaries are made by a call: the one it returns (line 134) and
    [names_grads_wrt_params] (line 135), which nothing refers to once the
    call is over. *)
Definition update_params (self : MetaLearner) (inner_loss : pyval)
    (names_weights_copy : ref) (step_size : F) (first_order : bool) : M ref :=
  nwc ← dict_deref names_weights_copy;
  ext_do (net_zero_grad (Some nwc));;
  grads ← autograd_grad inner_loss (map_to_list nwc).*2 (negb first_order);
  updated_names_weights_dict ← dict_new;
  nwc ← dict_deref names_weights_copy;
  names_grads_wrt_params ←
    dict_of (list_to_map (zip (map_to_list nwc).*1 grads));
  ngw ← dict_deref names_grads_wrt_params;
  for_each (map_to_list ngw).*1
    (update_params_body names_weights_copy names_grads_wrt_params step_size
       updated_names_weights_dict) tt;;
  mret updated_names_weights_dict.

(** ** inner_loss: REINFORCE with the argmax decode as baseline *)

(** The accumulators of [inner_loss] that live across examples. *)
Record Acc := mkAcc {
  net_policies : list Tensor;
  net_actions : list Z;
  net_advantages : list F;
  total_samples : nat;
  skipped_samples : nat;
}.

Definition acc_init : Acc := mkAcc [] [] [] 0 0.

(** The scan of [action_memory] for a duplicate of [actions] (the loop with
    [break]; the guard on the length changes nothing). *)
Definition duplicate_flag (action_memory : list (list Z)) (actions : list Z)
    : bool :=
  existsb (λ temp_list, duplicate temp_list actions) action_memory.

(** One turn of [for _ in range(self.samples)].  The state is
    [action_memory] with the accumulators.  [action_tokens] is built and
    never read (the reward call that took it is commented out), and is left
    out. *)
Definition sampling_step (self : MetaLearner) (item_enc : Enc)
    (beg_embedding context_idx : Tensor) (argmax_reward : F)
    (st : list (list Z) * Acc) : M (list (list Z) * Acc) :=
  let '(action_memory, a) := st in
  '(r_sample, actions) ← ext_call
    (net_decode_chain_sampling item_enc beg_embedding MAX_TOKENS context_idx
       (end_token self));
  let total := total_samples a + 1 in
  if negb (duplicate_flag action_memory actions) then
    let action_memory := action_memory ++ [actions] in
    sample_reward ← ext_call random_random;
    mret (action_memory,
          mkAcc (net_policies a ++ [r_sample])
                (net_actions a ++ actions)
                (net_advantages a
                   ++ replicate (length actions) (fsub sample_reward argmax_reward))
                total (skipped_samples a))
  else
    mret (action_memory,
          mkAcc (net_policies a) (net_actions a) (net_advantages a)
                total (skipped_samples a + 1)).

(** [for _ in range(self.samples)], from an empty [action_memory]. *)
Definition sampling_loop (self : MetaLearner) (item_enc : Enc)
    (beg_embedding context_idx : Tensor) (argmax_reward : F) (a : Acc)
    : M (list (list Z) * Acc) :=
  let action_memory : list (list Z) := [] in
  for_each (seq 0 (Z.to_nat (samples self)))
    (λ _, sampling_step self item_enc beg_embedding context_idx argmax_reward)
    (action_memory, a).

(** The head of a turn of [for idx, inp_idx in enumerate(input_batch)], up
    to the baseline reward (lines 191-210): the entry of [output_batch], the
    console line, the argmax decode, and the reward drawn for it (here too
    [action_tokens] is built for a reward call that is commented out). *)
Definition example_head (self : MetaLearner) (output_batch : list QA)
    (context : Tensor) (enc : Enc) (beg_embedding : Tensor) (idx : nat)
    : M (Enc * F) :=
  qa_info ← match output_batch !! idx with
            | Some q => mret q
            | None => raise IndexError
            end;
  print (qa_qid qa_info +:+ " is training...");;
  let item_enc := net_get_encoded_item enc idx in
  '(r_argmax, actions) ← ext_call
    (net_decode_chain_argmax item_enc beg_embedding MAX_TOKENS
       (tensor_getitem context idx) (end_token self));
  argmax_reward ← ext_call random_random;
  mret (item_enc, argmax_reward).

(** One turn of [for idx, inp_idx in enumerate(input_batch)]. *)
Definition example_body (self : MetaLearner) (output_batch : list QA)
    (context : Tensor) (enc : Enc) (beg_embedding : Tensor)
    (item : nat * list Z) (a : Acc) : M Acc :=
  let '(idx, inp_idx) := item in
  '(item_enc, argmax_reward) ←
    example_head self output_batch context enc beg_embedding idx;
  '(_, a') ← sampling_loop self item_enc beg_embedding
    (tensor_getitem context idx) argmax_reward a;
  mret a'.

(** The loss tensor built from the accumulators (lines 293-317). *)
Definition policy_loss (self : MetaLearner)
    (net_policies : list Tensor) (net_actions : list Z)
    (net_advantages : list F) : Tensor :=
  let policies_v := cuda (tcat net_policies) in
  let actions_t := cuda (Tensor_to (device self) (LongTensor net_actions)) in
  let adv_v := cuda (Tensor_to (device self) (FloatTensor net_advantages)) in
  let log_prob_v := cuda (log_softmax policies_v 1) in
  let log_prob_actions_v :=
    cuda (tmul adv_v (index_rows log_prob_v (length net_actions) actions_t)) in
  let loss_policy_v := cuda (tneg (tmean log_prob_actions_v)) in
  loss_policy_v.

(** The head of [inner_loss], up to the loop over the batch (lines 166-184):
    the support set, the weights put into the network, the packed batch, the
    encoder pass and the embedding of the begin token. *)
Definition inner_loss_head (self : MetaLearner) (task : Task)
    (weights : option ref)
    : M (list (list Z) * list QA * Tensor * Enc * Tensor) :=
  let batch := establish_support_set task 0 in
  match weights with
  | Some r => d ← dict_deref r; ext_do (net_insert_new_parameter d true)
  | None => mret tt
  end;;
  '(input_seq, input_batch, output_batch) ← ext_read
    (pack_batch_no_out batch (device self));
  let input_seq := cuda input_seq in
  '(context, enc) ← ext_call (net_encode_context input_seq);
  beg_embedding ← ext_call (net_emb (beg_token self));
  let beg_embedding := cuda beg_embedding in
  mret (input_batch, output_batch, context, enc, beg_embedding).

Definition inner_loss (self : MetaLearner) (task : Task) (weights : option ref)
    : M (pyval * nat * nat) :=
  '(input_batch, output_batch, context, enc, beg_embedding) ←
    inner_loss_head self task weights;
  a ← for_each (zip (seq 0 (length input_batch)) input_batch)
        (example_body self output_batch context enc beg_embedding) acc_init;
  match net_policies a with
  | [] =>
      log_info "The net_policies is empty!";;
      mret (PyFloat f_zero, total_samples a, skipped_samples a)
  | _ :: _ =>
      mret (PyTensor (policy_loss self (net_policies a) (net_actions a)
                        (net_advantages a)),
            total_samples a, skipped_samples a)
  end.

(** ** sample: two inner updates and the meta-loss, per task *)

(** [torch.stack] wants a non-empty sequence of tensors. *)
Fixpoint as_tensors (l : list pyval) : option (list Tensor) :=
  match l with
  | [] => Some []
  | PyTensor t :: l' => cons t <$> as_tensors l'
  | PyFloat _ :: _ => None
  end.

Definition torch_stack (l : list pyval) : M Tensor :=
  match l with
  | [] => raise RuntimeError
  | _ :: _ =>
      match as_tensors l with
      | Some ts => mret (tstack ts)
      | None => raise TypeError
      end
  end.

(** One turn of [for task in tasks]; the state is [task_losses],
    [total_samples], [skipped_samples]. *)
Definition sample_body (self : MetaLearner) (task : Task)
    (st : list pyval * nat * nat) : M (list pyval * nat * nat) :=
  let '(task_losses, total_samples, skipped_samples) := st in
  params ← ext_read net_named_parameters;
  names_weights_copy ← get_inner_loop_parameter_dict self params;
  '(inner_loss_v, inner_total_samples, inner_skipped_samples) ←
    inner_loss self task (Some names_weights_copy);
  let total_samples := total_samples + inner_total_samples in
  let skipped_samples := skipped_samples + inner_skipped_samples in
  names_weights_copy ← update_params self inner_loss_v names_weights_copy
    (fast_lr self) (first_order_ self);
  '(inner_loss_v, inner_total_samples, inner_skipped_samples) ←
    inner_loss self task (Some names_weights_copy);
  let total_samples := total_samples + inner_total_samples in
  let skipped_samples := skipped_samples + inner_skipped_samples in
  names_weights_copy ← update_params self inner_loss_v names_weights_copy
    (fast_lr self) (first_order_ self);
  '(meta_loss, outer_total_samples, outer_skipped_samples) ←
    inner_loss self task (Some names_weights_copy);
  mret (task_losses ++ [meta_loss], total_samples, skipped_samples).

(** The argument [first_order] is not read: the updates take
    [self.first_order]. *)
Definition sample (self : MetaLearner) (tasks : list Task) (first_order : bool)
    : M (Tensor * nat * nat) :=
  ext_do (net_zero_grad None);;
  '(task_losses, total_samples, skipped_samples) ←
    for_each tasks (sample_body self) ([], 0, 0);
  stacked ← torch_stack task_losses;
  let meta_losses := tmean stacked in
  mret (meta_losses, total_samples, skipped_samples).

(** ** What a run draws, and what the claims say of it *)

(** A stochastic decode as the sampling loop sees it: the logits, the token
    sequence, and the reward [random.random()] has for it next. *)
Definition draw_at (self : MetaLearner) (item_enc : Enc)
    (beg_embedding context_idx : Tensor) (w : World)
    : Tensor * list Z * F :=
  let '((r_sample, actions), e1) :=
    net_decode_chain_sampling item_enc beg_embedding MAX_TOKENS context_idx
      (end_token self) (w_ext w) in
  (r_sample, actions, (random_random e1).1).

(** The baseline of an example as the loop over the batch sees it: the
    reward [random.random()] has next, once the argmax decode of the example
    has been made. *)
Definition baseline_at (self : MetaLearner) (context : Tensor) (enc : Enc)
    (beg_embedding : Tensor) (idx : nat) (w : World) : F :=
  let '(_, e1) :=
    net_decode_chain_argmax (net_get_encoded_item enc idx) beg_embedding
      MAX_TOKENS (tensor_getitem context idx) (end_token self) (w_ext w) in
  (random_random e1).1.

(** The decodes of [n] turns of the sampling loop, in order. *)
Fixpoint sampling_trace (self : MetaLearner) (item_enc : Enc)
    (beg_embedding context_idx : Tensor) (argmax_reward : F) (n : nat)
    (st : list (list Z) * Acc) (w : World) : list (Tensor * list Z * F) :=
  match n with
  | 0 => []
  | S n' =>
      draw_at self item_enc beg_embedding context_idx w ::
      match sampling_step self item_enc beg_embedding context_idx
              argmax_reward st w with
      | Ok (st', w') =>
          sampling_trace self item_enc beg_embedding context_idx
            argmax_reward n' st' w'
      | Raise _ => []
      end
  end.

(** Per example of the batch: the baseline reward and the decodes.  The
    baseline is the draw [baseline_at] names, and the decodes are those of
    the example's encoded item; the worlds are those the code goes through. *)
Fixpoint examples_trace (self : MetaLearner) (output_batch : list QA)
    (context : Tensor) (enc : Enc) (beg_embedding : Tensor)
    (items : list (nat * list Z)) (a : Acc) (w : World)
    : list (F * list (Tensor * list Z * F)) :=
  match items with
  | [] => []
  | item :: items' =>
      match example_head self output_batch context enc beg_embedding
              item.1 w with
      | Ok (_, w1) =>
          let argmax_reward :=
            baseline_at self context enc beg_embedding item.1 w in
          (argmax_reward,
           sampling_trace self (net_get_encoded_item enc item.1) beg_embedding
             (tensor_getitem context item.1) argmax_reward
             (Z.to_nat (samples self)) ([], a) w1) ::
          match example_body self output_batch context enc beg_embedding
                  item a w with
          | Ok (a', w') =>
              examples_trace self output_batch context enc beg_embedding
                items' a' w'
          | Raise _ => []
          end
      | Raise _ => []
      end
  end.

(** The decodes that do not repeat the token sequence of an earlier decode
    of the same example ([seen]: the sequences decoded so far). *)
Fixpoint kept_draws (seen : list (list Z))
    (tr : list (Tensor * list Z * F)) : list (Tensor * list Z * F) :=
  match tr with
  | [] => []
  | d :: tr' =>
      if bool_decide (d.1.2 ∈ seen) then kept_draws (d.1.2 :: seen) tr'
      else d :: kept_draws (d.1.2 :: seen) tr'
  end.

(** The number of decodes that do repeat one. *)
Fixpoint duplicate_draws (seen : list (list Z))
    (tr : list (Tensor * list Z * F)) : nat :=
  match tr with
  | [] => 0
  | d :: tr' =>
      (if bool_decide (d.1.2 ∈ seen) then 1 else 0)
      + duplicate_draws (d.1.2 :: seen) tr'
  end.

(** The kept samples of a task, each with the baseline of its example. *)
Definition kept_samples (obs : list (F * list (Tensor * list Z * F)))
    : list (F * (Tensor * list Z * F)) :=
  obs ≫= λ '(baseline, tr), pair baseline <$> kept_draws [] tr.

(** The advantage of every token of a sample: reward minus baseline. *)
Definition sample_advantages (k : F * (Tensor * list Z * F)) : list F :=
  replicate (length k.2.1.2) (fsub k.2.2 k.1).

(** What one task goes through in [sample]. *)
Record TaskRun := mkTaskRun {
  weights0 : ref;                     (* the mapping derived from the network *)
  loss1 : pyval; total1 : nat; skipped1 : nat;
  weights1 : ref;                     (* after the first inner update *)
  loss2 : pyval; total2 : nat; skipped2 : nat;
  weights2 : ref;                     (* after the second inner update *)
  meta_loss : pyval; total3 : nat; skipped3 : nat;
}.

(** The five steps in order, each from the world the one before left. *)
Definition task_run (self : MetaLearner) (task : Task) (w : World)
    (r : TaskRun) (w' : World) : Prop :=
  ∃ w1 w2 w3 w4 w5,
    get_inner_loop_parameter_dict self (net_named_parameters (w_ext w)) w
      = Ok (weights0 r, w1) ∧
    inner_loss self task (Some (weights0 r)) w1
      = Ok ((loss1 r, total1 r, skipped1 r), w2) ∧
    update_params self (loss1 r) (weights0 r) (fast_lr self)
      (first_order_ self) w2 = Ok (weights1 r, w3) ∧
    inner_loss self task (Some (weights1 r)) w3
      = Ok ((loss2 r, total2 r, skipped2 r), w4) ∧
    update_params self (loss2 r) (weights1 r) (fast_lr self)
      (first_order_ self) w4 = Ok (weights2 r, w5) ∧
    inner_loss self task (Some (weights2 r)) w5
      = Ok ((meta_loss r, total3 r, skipped3 r), w').

(** Task after task. *)
Inductive batch_run (self : MetaLearner)
    : list Task → World → list TaskRun → World → Prop :=
  | batch_run_nil w : batch_run self [] w [] w
  | batch_run_cons task tasks w r w1 rs w' :
      task_run self task w r w1 →
      batch_run self tasks w1 rs w' →
      batch_run self (task :: tasks) w (r :: rs) w'.

(** The dictionary [get_inner_loop_parameter_dict] builds. *)
Definition inner_loop_dict (dev : Device) (params : list (string * Tensor))
    : gmap string Tensor :=
  foldl (λ d '(name, param),
           if requires_grad param then <[name := Tensor_to dev param]> d else d)
        ∅ params.

(** The new value [update_params] stores under a key. *)
Definition updated_value (nwc ng : gmap string Tensor) (step_size : F)
    (key : string) : option Tensor :=
  t ← nwc !! key; g ← ng !! key; Some (tsub t (smul step_size g)).


End MetaLearner.

(** ** The trust-region step (TRPO path) *)

(** [step] works on [self.policy] through [surrogate_loss],
    [hessian_vector_product] and [conjugate_gradient].  The policy, the
    adaptation and the helpers these call ([self.adapt], [self.baseline],
    [weighted_mean], [conjugate_gradient], ...) are not under src/: they are
    taken as parameters, as functions of the episodes and of the policy's
    current parameters.  Scalars (Python floats and 0-dim tensors) and flat
    parameter vectors come with the operations [step] applies to them. *)
Class Trpo := {
  R : Type;
  r_zero : R;                         (* 0.0 *)
  r_one : R;                          (* 1.0 *)
  r_half : R;                         (* 0.5 *)
  rsub : R → R → R;
  rmul : R → R → R;
  rdiv : R → R → R;
  rsqrt : R → R;                      (* torch.sqrt *)
  rltb : R → R → bool;                (* < *)
  Vec : Type;
  vadd : Vec → Vec → Vec;
  vsub : Vec → Vec → Vec;
  vscale : R → Vec → Vec;             (* scalar * vector *)
  vdiv : Vec → R → Vec;               (* vector / scalar *)
  vdot : Vec → Vec → R;               (* torch.dot *)
  Episodes : Type;
  Pis : Type;
  (** [self.surrogate_loss(episodes, old_pis)] with the policy at the given
      parameters: the loss, the KL divergence, the detached policies. *)
  surrogate_loss : Episodes → option Pis → Vec → R * R * Pis;
  (** The flattened gradient of the surrogate loss at the parameters. *)
  surrogate_grad : Episodes → Vec → Vec;
  (** The double-backward of the KL divergence against a vector
      ([flat_grad2_kl] in [_product]). *)
  kl_grad2 : Episodes → Vec → Vec → Vec;
  conjugate_gradient : (Vec → Vec) → Vec → Z → Vec;
}.

Section TrustRegion.
Context `{T : Trpo}.

(** [hessian_vector_product(episodes, damping)]: the closure [_product]. *)
Definition hessian_vector_product (episodes : Episodes) (damping : R)
    (params : Vec) : Vec → Vec :=
  λ vector, vadd (kl_grad2 episodes params vector) (vscale damping vector).

(** Lines 500-512: the conjugate-gradient direction, the Lagrange multiplier
    and the step vector. *)
Definition step_vector (episodes : Episodes) (max_kl : R) (cg_iters : Z)
    (cg_damping : R) (params : Vec) : Vec :=
  let grads := surrogate_grad episodes params in
  let hessian_vector_product :=
    hessian_vector_product episodes cg_damping params in
  let stepdir := conjugate_gradient hessian_vector_product grads cg_iters in
  let shs := rmul r_half (vdot stepdir (hessian_vector_product stepdir)) in
  let lagrange_multiplier := rsqrt (rdiv shs max_kl) in
  vdiv stepdir lagrange_multiplier.

(** The line search, [n] turns left: [Some params] when a turn breaks out of
    the loop with the policy at [params], [None] when the loop runs out. *)
Fixpoint line_search (episodes : Episodes) (old_pis : Pis) (old_loss : R)
    (old_params step : Vec) (max_kl ls_backtrack_ratio : R)
    (n : nat) (step_size : R) : option Vec :=
  match n with
  | 0 => None
  | S n' =>
      let params := vsub old_params (vscale step_size step) in
      let '(loss, kl, _) := surrogate_loss episodes (Some old_pis) params in
      let improve := rsub loss old_loss in
      if rltb improve r_zero && rltb kl max_kl then Some params
      else line_search episodes old_pis old_loss old_params step max_kl
             ls_backtrack_ratio n' (rmul step_size ls_backtrack_ratio)
  end.

(** [step]: from the policy's parameters to the policy's parameters. *)
Definition step (episodes : Episodes) (max_kl : R) (cg_iters : Z)
    (cg_damping : R) (ls_max_steps : Z) (ls_backtrack_ratio : R)
    (params : Vec) : Vec :=
  let '(old_loss, _, old_pis) := surrogate_loss episodes None params in
  let step := step_vector episodes max_kl cg_iters cg_damping params in
  let old_params := params in
  let step_size := r_one in
  match line_search episodes old_pis old_loss old_params step max_kl
          ls_backtrack_ratio (Z.to_nat ls_max_steps) step_size with
  | Some params => params
  | None => old_params                (* the else of the for *)
  end.

(** The step size of the turn of index [k]: 1.0 times the ratio, [k] times. *)
Definition ls_step_size (ls_backtrack_ratio : R) (k : nat) : R :=
  Nat.iter k (λ s, rmul s ls_backtrack_ratio) r_one.

(** The parameters the turn of index [k] puts into the policy. *)
Definition ls_candidate (old_params step : Vec) (ls_backtrack_ratio : R)
    (k : nat) : Vec :=
  vsub old_params (vscale (ls_step_size ls_backtrack_ratio k) step).

(** The test of the source on parameters [p]: the improvement is below 0.0
    and the KL divergence below max_kl. *)
Definition ls_test (episodes : Episodes) (old_pis : Pis) (old_loss max_kl : R)
    (p : Vec) : bool :=
  rltb (rsub (surrogate_loss episodes (Some old_pis) p).1.1 old_loss) r_zero
  && rltb (surrogate_loss episodes (Some old_pis) p).1.2 max_kl.

(** The test in the words of the spec: the new loss is below the old loss
    and the new KL divergence below max_kl. *)
Definition ls_better (episodes : Episodes) (old_pis : Pis) (old_loss max_kl : R)
    (p : Vec) : bool :=
  rltb (surrogate_loss episodes (Some old_pis) p).1.1 old_loss
  && rltb (surrogate_loss episodes (Some old_pis) p).1.2 max_kl.

(** The conjugate-gradient direction [x] of [step], and [x]·[Hx]. *)
Definition cg_direction (episodes : Episodes) (cg_iters : Z) (cg_damping : R)
    (params : Vec) : Vec :=
  conjugate_gradient (hessian_vector_product episodes cg_damping params)
    (surrogate_grad episodes params) cg_iters.

Definition trust_region_scale (episodes : Episodes) (max_kl : R)
    (cg_iters : Z) (cg_damping : R) (params : Vec) : R :=
  let x := cg_direction episodes cg_iters cg_damping params in
  rsqrt (rdiv (rmul r_half
                 (vdot x (hessian_vector_product episodes cg_damping params x)))
              max_kl).

End TrustRegion.

(** ** A small symbolic instance of the collaborators *)

(** Tensors are terms: a parameter is a named leaf, every operation builds
    the term of its result, and the gradient of an output with respect to an
    input exists when the input occurs in the term of the output.  The
    logits the decoders return mention all the current parameters; the
    stochastic decoder draws its token from a counter (two draws in a row
    are alike), [random.random()] from another. *)
Module Sym.

Inductive T :=
  | Leaf (name : string) (dev : Device) (rg : bool)
  | Lit (tag : string) (zs : list Z)
  | Flt (xs : list QArith_base.Q)
  | Copy (dev : Device) (t : T)
  | Un (op : string) (a : T)
  | Bin (op : string) (a b : T).

#[global] Instance Q_eq_dec : EqDecision QArith_base.Q.
Proof. solve_decision. Defined.

#[global] Instance T_eq_dec : EqDecision T.
Proof. solve_decision. Defined.

Fixpoint occurs (i o : T) : bool :=
  bool_decide (i = o) ||
  match o with
  | Leaf _ _ _ | Lit _ _ | Flt _ => false
  | Copy _ t | Un _ t => occurs i t
  | Bin _ a b => occurs i a || occurs i b
  end.

Fixpoint dev_of (t : T) : Device :=
  match t with
  | Leaf _ d _ => d
  | Lit _ _ | Flt _ => Cpu
  | Copy d _ => d
  | Un _ a => dev_of a
  | Bin _ a _ => dev_of a
  end.

Definition rg_of (t : T) : bool :=
  match t with
  | Leaf _ _ rg => rg
  | Lit _ _ | Flt _ => false
  | _ => true
  end.

Definition chain (op : string) (l : list T) : T :=
  foldr (Bin op) (Lit op []) l.

Record ext := mkExt {
  params : list (string * T);         (* the network's current parameters *)
  np_rng : nat;                       (* the decoder's generator *)
  py_rng : nat;                       (* random's generator *)
  opt_steps : nat;                    (* optimizer steps taken *)
}.

Definition forward (tag : string) (x : T) (e : ext) : T :=
  Bin tag x (chain "params" (params e).*2).

#[global] Instance substrate : Substrate := {|
  F := QArith_base.Q;
  f_zero := QArith_base.Qmake 0 1;
  f_1e_3 := QArith_base.Qmake 1 1000;
  fsub := QArith_base.Qminus;
  Tensor := T;
  tensor_device := dev_of;
  requires_grad := rg_of;
  copy_to := Copy;
  tensor_repr := λ _, "tensor";
  tsub := Bin "sub";
  smul := λ x t, Bin "smul" (Flt [x]) t;
  tmul := Bin "mul";
  tneg := Un "neg";
  tmean := Un "mean";
  tcat := chain "cat";
  tstack := chain "stack";
  log_softmax := λ t _, Un "log_softmax" t;
  FloatTensor := Flt;
  LongTensor := Lit "long";
  index_rows := λ t _ idx, Bin "index" t idx;
  tensor_getitem := λ t i, Bin "getitem" t (Lit "idx" [Z.of_nat i]);
  Ext := ext;
  Task := list Z;
  QA := string;
  qa_qid := id;
  Enc := T;
  MAX_TOKENS := 4%Z;
  net_zero_grad := λ _ e, e;
  net_named_parameters := params;
  net_insert_new_parameter := λ d _ e,
    mkExt (map_to_list d) (np_rng e) (py_rng e) (opt_steps e);
  pack_batch_no_out := λ batch _ e,
    (chain "seq" (Lit "tokens" <$> batch), batch, (λ _, "q") <$> batch);
  net_encode_context := λ x e, ((Un "context" x, Un "enc" x), e);
  net_emb := λ x e, (Un "emb" x, e);
  net_get_encoded_item := λ enc i, Bin "item" enc (Lit "idx" [Z.of_nat i]);
  net_decode_chain_argmax := λ enc beg _ ctx _ e,
    ((forward "logits" (Bin "dec" enc ctx) e, [7%Z]), e);
  net_decode_chain_sampling := λ enc beg _ ctx _ e,
    ((forward "logits" (Bin "dec" enc ctx) e, [Z.of_nat (np_rng e / 2)]),
     mkExt (params e) (S (np_rng e)) (py_rng e) (opt_steps e));
  random_random := λ e,
    (QArith_base.inject_Z (Z.of_nat (py_rng e)),
     mkExt (params e) (np_rng e) (S (py_rng e)) (opt_steps e));
  autograd_partial := λ create_graph o i _,
    if occurs i o
    then Some (Bin (if create_graph then "grad+graph" else "grad") o i)
    else None;
  autograd_after := λ _ _ e, e;
  autograd_no_inputs := ValueError;
  optimizer_zero_grad := λ _ e, e;
  tensor_backward := λ _ e, e;
  optimizer_step := λ _ e,
    mkExt (params e) (np_rng e) (py_rng e) (S (opt_steps e));
|}.

Definition w0 : T := Leaf "w" Cuda true.
Definition b0 : T := Leaf "b" Cuda true.

Definition ext0 : ext := mkExt [("w", w0); ("b", b0)] 0 0 0.
Definition world0 : World := mkWorld ext0 [] [] [].

(** A learner on the device of the network. *)
Definition learner (samples : Z) : MetaLearner :=
  MetaLearner_init Cuda (Lit "beg" [1%Z]) 2%Z false samples false
    (QArith_base.Qmake 1 1000) (QArith_base.Qmake 1 10000) false.

(** A world whose heap holds the mapping of the two parameters. *)
Definition world1 : World :=
  mkWorld ext0 [{[ "w" := w0; "b" := b0 ]}] [] [].

(** Checks on what a run returned: the counts, the optimizer steps taken so
    far, the size of the heap. *)
Definition sample_returns (r : result (T * nat * nat * World))
    (total skipped : nat) : bool :=
  match r with
  | Ok (_, t, s, w) =>
      (t =? total) && (s =? skipped) && (opt_steps (w_ext w) =? 0)
  | Raise _ => false
  end.

Definition inner_loss_returns (r : result (pyval * nat * nat * World))
    (total skipped heap_size : nat) : bool :=
  match r with
  | Ok (_, t, s, w) =>
      (t =? total) && (s =? skipped) && (length (w_heap w) =? heap_size)
  | Raise _ => false
  end.

Definition update_params_returns (r : result (ref * World)) (r' : ref)
    : bool :=
  match r with
  | Ok (x, _) => x =? r'
  | Raise _ => false
  end.

End Sym.

(** ** A one-policy instance of the trust-region collaborators *)

(** Rational scalars, vectors as lists.  The surrogate loss is the squared
    distance to a target (the episodes), the KL divergence half the squared
    distance to the old parameters, so its Hessian is the identity; the
    conjugate gradient solves the diagonal system exactly; the square root is
    exact on squares of rationals and rounds down elsewhere. *)
Module Quad.
Import QArith_base.

Definition qltb (a b : Q) : bool :=
  (Qnum a * Zpos (Qden b) <? Qnum b * Zpos (Qden a))%Z.

Definition qsqrt (q : Q) : Q :=
  Qmake (Z.sqrt (Qnum q * Zpos (Qden q))) (Qden q).

Definition sqdist (p q : list Q) : Q :=
  foldr Qplus (Qmake 0 1) (zip_with (λ x y, Qmult (Qminus x y) (Qminus x y)) p q).

#[global] Instance trpo : Trpo := {|
  R := Q;
  r_zero := Qmake 0 1;
  r_one := Qmake 1 1;
  r_half := Qmake 1 2;
  rsub := Qminus;
  rmul := Qmult;
  rdiv := Qdiv;
  rsqrt := qsqrt;
  rltb := qltb;
  Vec := list Q;
  vadd := zip_with Qplus;
  vsub := zip_with Qminus;
  vscale := λ c v, Qmult c <$> v;
  vdiv := λ v c, (λ x, Qdiv x c) <$> v;
  vdot := λ u v, foldr Qplus (Qmake 0 1) (zip_with Qmult u v);
  Episodes := list Q;
  Pis := list Q;
  surrogate_loss := λ target old_pis p,
    (sqdist p target,
     match old_pis with
     | Some o => Qmult (Qmake 1 2) (sqdist p o)
     | None => Qmake 0 1
     end,
     p);
  surrogate_grad := λ target p, Qmult (Qmake 2 1) <$> zip_with Qminus p target;
  kl_grad2 := λ _ _ v, v;
  conjugate_gradient := λ f g _, zip_with Qdiv g (f ((λ _, Qmake 1 1) <$> g));
|}.

End Quad.

(** ** kl_divergence and surrogate_loss (TRPO path) *)

(** The two methods [step] evaluates the policy with.  The class defines no
    method [adapt]: a learner as the file builds it has no such attribute,
    and [self.adapt], the first thing a turn of either loop evaluates, raises
    AttributeError.  [adapt_defined] says whether the object was given one;
    [adapt] and the other names the loops use, which are not under src/
    either ([self.policy], [self.baseline], [self.tau],
    [detach_distribution], [weighted_mean], [weighted_normalize], the
    [kl_divergence] of distributions, the episodes' fields), are what a
    completed learner has for them.  [with torch.set_grad_enabled(b)] is the
    first argument of every operation made inside the block. *)
Class Policy := {
  PTensor : Type;
  Dist : Type;                        (* a distribution over actions *)
  Adapted : Type;                     (* the parameters [adapt] returns *)
  BatchEpisodes : Type;
  observations : BatchEpisodes → PTensor;
  actions : BatchEpisodes → PTensor;
  mask : BatchEpisodes → PTensor;
  gae : bool → BatchEpisodes → PTensor → PTensor → PTensor;
  tau : PTensor;                      (* self.tau *)
  adapt_defined : bool;               (* hasattr(self, 'adapt') *)
  adapt : BatchEpisodes → Adapted;
  policy : bool → PTensor → Adapted → Dist;
  baseline : bool → BatchEpisodes → PTensor;
  detach_distribution : Dist → Dist;
  log_prob : bool → Dist → PTensor → PTensor;
  dist_kl_divergence : bool → Dist → Dist → PTensor;
  weighted_mean : bool → PTensor → Z → PTensor → PTensor;
  weighted_normalize : bool → PTensor → PTensor → PTensor;
  p_dim : PTensor → Z;                (* t.dim() *)
  p_unsqueeze : bool → PTensor → Z → PTensor;
  p_sub : bool → PTensor → PTensor → PTensor;
  p_mul : bool → PTensor → PTensor → PTensor;
  p_neg : bool → PTensor → PTensor;
  p_exp : bool → PTensor → PTensor;
  p_sum : bool → PTensor → Z → PTensor;          (* torch.sum(t, dim=d) *)
  p_stack : list PTensor → Z → PTensor;          (* on a non-empty list *)
  p_mean : PTensor → PTensor;
}.

Module TrpoLosses.
Section Methods.
Context `{P : Policy}.

(** [for x in l: s = body s x], where a turn may raise. *)
Fixpoint for_result {A St} (body : St → A → result St) (s : St) (l : list A)
    : result St :=
  match l with
  | [] => Ok s
  | x :: l' =>
      match body s x with
      | Ok s' => for_result body s' l'
      | Raise e => Raise e
      end
  end.

(** [self.adapt(train_episodes)] *)
Definition self_adapt (train_episodes : BatchEpisodes) : result Adapted :=
  if adapt_defined then Ok (adapt train_episodes) else Raise AttributeError.

(** [torch.mean(torch.stack(l, dim=0))]: an empty list cannot be stacked. *)
Definition mean_of_stack (l : list PTensor) : result PTensor :=
  match l with
  | [] => Raise RuntimeError
  | _ :: _ => Ok (p_mean (p_stack l 0))
  end.

(** [old_pis] as the loops see it: [[None] * len(episodes)] when it is not
    given. *)
Definition old_pis_or_nones (episodes : list (BatchEpisodes * BatchEpisodes))
    (old_pis : option (list (option Dist))) : list (option Dist) :=
  match old_pis with
  | None => replicate (length episodes) None
  | Some l => l
  end.

(** One turn of the loop of [kl_divergence]. *)
Definition kl_divergence_turn (kls : list PTensor)
    (item : BatchEpisodes * BatchEpisodes * option Dist)
    : result (list PTensor) :=
  let '((train_episodes, valid_episodes), old_pi) := item in
  match self_adapt train_episodes with
  | Raise e => Raise e
  | Ok params =>
      let pi := policy true (observations valid_episodes) params in
      let old_pi := match old_pi with
                    | None => detach_distribution pi
                    | Some o => o
                    end in
      let mask0 := mask valid_episodes in
      let mask0 := if (2 <? p_dim (actions valid_episodes))%Z
                   then p_unsqueeze true mask0 2 else mask0 in
      let kl :=
        weighted_mean true (dist_kl_divergence true pi old_pi) 0 mask0 in
      Ok (kls ++ [kl])
  end.

Definition kl_divergence (episodes : list (BatchEpisodes * BatchEpisodes))
    (old_pis : option (list (option Dist))) : result PTensor :=
  let old_pis := old_pis_or_nones episodes old_pis in
  match for_result kl_divergence_turn [] (zip episodes old_pis) with
  | Raise e => Raise e
  | Ok kls => mean_of_stack kls
  end.

(** One turn of the loop of [surrogate_loss]; the state is [losses], [kls],
    [pis].  The block runs with grad enabled exactly when the turn was given
    no old policy. *)
Definition surrogate_loss_turn
    (st : list PTensor * list PTensor * list Dist)
    (item : BatchEpisodes * BatchEpisodes * option Dist)
    : result (list PTensor * list PTensor * list Dist) :=
  let '(losses, kls, pis) := st in
  let '((train_episodes, valid_episodes), old_pi) := item in
  match self_adapt train_episodes with
  | Raise e => Raise e
  | Ok params =>
      let grad := match old_pi with None => true | Some _ => false end in
      let pi := policy grad (observations valid_episodes) params in
      let pis := pis ++ [detach_distribution pi] in
      let old_pi := match old_pi with
                    | None => detach_distribution pi
                    | Some o => o
                    end in
      let values := baseline grad valid_episodes in
      let advantages := gae grad valid_episodes values tau in
      let advantages :=
        weighted_normalize grad advantages (mask valid_episodes) in
      let log_ratio := p_sub grad (log_prob grad pi (actions valid_episodes))
                         (log_prob grad old_pi (actions valid_episodes)) in
      let log_ratio := if (2 <? p_dim log_ratio)%Z
                       then p_sum grad log_ratio 2 else log_ratio in
      let ratio := p_exp grad log_ratio in
      let loss := p_neg grad (weighted_mean grad (p_mul grad ratio advantages)
                                0 (mask valid_episodes)) in
      let losses := losses ++ [loss] in
      let mask0 := mask valid_episodes in
      let mask0 := if (2 <? p_dim (actions valid_episodes))%Z
                   then p_unsqueeze grad mask0 2 else mask0 in
      let kl :=
        weighted_mean grad (dist_kl_divergence grad pi old_pi) 0 mask0 in
      let kls := kls ++ [kl] in
      Ok (losses, kls, pis)
  end.

Definition surrogate_loss (episodes : list (BatchEpisodes * BatchEpisodes))
    (old_pis : option (list (option Dist)))
    : result (PTensor * PTensor * list Dist) :=
  let old_pis := old_pis_or_nones episodes old_pis in
  match for_result surrogate_loss_turn ([], [], []) (zip episodes old_pis) with
  | Raise e => Raise e
  | Ok (losses, kls, pis) =>
      match mean_of_stack losses with
      | Raise e => Raise e
      | Ok loss =>
          match mean_of_stack kls with
          | Raise e => Raise e
          | Ok kl => Ok (loss, kl, pis)
          end
      end
  end.

(** The detached policy a turn of [surrogate_loss] appends for an episode
    pair evaluated with no old policy. *)
Definition fresh_pi (item : BatchEpisodes * BatchEpisodes) : Dist :=
  detach_distribution (policy true (observations item.2) (adapt item.1)).

End Methods.
End TrpoLosses.

(** ** An instance of the policy collaborators over the integers *)

(** Episodes, tensors and distributions are integers; a policy is the sum of
    the observation and the adapted parameter, and the stack of a list is its
    sum.  [policy_z] is a learner that was given a method [adapt],
    [policy_as_shipped] one that was not. *)
Module PolicyZ.

Definition policy_of (defined : bool) : Policy := {|
  PTensor := Z;
  Dist := Z;
  Adapted := Z;
  BatchEpisodes := Z;
  observations := λ e, e;
  actions := λ e, (e + 1)%Z;
  mask := λ _, 1%Z;
  gae := λ _ _ values t, (values * t)%Z;
  tau := 1%Z;
  adapt_defined := defined;
  adapt := Z.succ;
  policy := λ _ obs params, (obs + params)%Z;
  baseline := λ _ e, e;
  detach_distribution := λ d, d;
  log_prob := λ _ d a, (d - a)%Z;
  dist_kl_divergence := λ _ p q, (p - q)%Z;
  weighted_mean := λ _ t _ w, (t * w)%Z;
  weighted_normalize := λ _ t w, (t * w)%Z;
  p_dim := λ _, 2%Z;
  p_unsqueeze := λ _ t _, t;
  p_sub := λ _, Z.sub;
  p_mul := λ _, Z.mul;
  p_neg := λ _, Z.opp;
  p_exp := λ _ t, t;
  p_sum := λ _ t _, t;
  p_stack := λ l _, foldr Z.add 0%Z l;
  p_mean := λ t, t;
|}.

#[global] Instance policy_z : Policy := policy_of true.

Definition policy_as_shipped : Policy := policy_of false.

End PolicyZ.

(** ** SymbolicExecutor/generateTest2.py: the mask dictionaries, the id *)

(** [testGenerate] reads and writes files; what it computes in between for
    every question is modelled here: the three mask dictionaries (lines
    74-92) from the lists of entities, relations and types, and in
    [load_qadata] the id cut out of a directory name (line 20).  A Python
    [str] is taken as its UTF-8 bytes: the characters the code looks for
    ('_', '-') are single bytes that occur in no multi-byte sequence, so
    searching and cutting by bytes gives the bytes of what Python gives.  A
    dict keeps its keys in insertion order and is a list of pairs. *)
Module GenerateTest2.

(** [str(n)] for a count. *)
Definition str (n : nat) : string := pretty n.

(** [key in d] *)
Definition dict_contains (d : list (string * string)) (key : string) : bool :=
  bool_decide (key ∈ d.*1).

(** [d.setdefault(key, value)] *)
Definition setdefault (d : list (string * string)) (key value : string)
    : list (string * string) :=
  if dict_contains d key then d else d ++ [(key, value)].

(** Lines 74-77 (with 'ENTITY') and 88-91 (with 'TYPE'): under the guard on
    the length, every item of [enumerate(items)] is given the mask of its
    index plus one, unless it has one. *)
Definition index_maskID (prefix : string) (items : list string)
    : list (string * string) :=
  if bool_decide (length items ≠ 0) then
    foldl (λ maskID '(i, item), setdefault maskID item (prefix +:+ str (i + 1)))
          [] (zip (seq 0 (length items)) items)
  else [].

Definition entity_maskID (entities : list string) : list (string * string) :=
  index_maskID "ENTITY" entities.

Definition type_maskID (types : list string) : list (string * string) :=
  index_maskID "TYPE" types.

(** [s.replace('-', '')] *)
Fixpoint remove_dash (s : string) : string :=
  match s with
  | EmptyString => EmptyString
  | String c s' =>
      if decide (c = "-"%char) then remove_dash s'
      else String c (remove_dash s')
  end.

(** One turn of [for relation in relations] (lines 82-86); the state is
    [relation_index] with [relation_maskID]. *)
Definition relation_step (st : nat * list (string * string))
    (relation : string) : nat * list (string * string) :=
  let '(relation_index, relation_maskID) := st in
  let relation := remove_dash relation in
  if negb (dict_contains relation_maskID relation) then
    let relation_index := relation_index + 1 in
    (relation_index,
     setdefault relation_maskID relation ("RELATION" +:+ str relation_index))
  else (relation_index, relation_maskID).

Definition relation_maskID (relations : list string)
    : list (string * string) :=
  if bool_decide (length relations ≠ 0) then
    (foldl relation_step (0, []) relations).2
  else [].

(** [s.rfind(c)] for a one-character [c]: the last index of [c], or -1. *)
Fixpoint rfind (c : ascii) (s : string) : Z :=
  match s with
  | EmptyString => (-1)%Z
  | String x s' =>
      let r := rfind c s' in
      if (r =? -1)%Z then (if decide (x = c) then 0%Z else (-1)%Z)
      else (r + 1)%Z
  end.

(** [s[n:]] for [0 <= n]. *)
Fixpoint string_drop (n : nat) (s : string) : string :=
  match n, s with
  | 0, _ => s
  | S n', String _ s' => string_drop n' s'
  | S _, EmptyString => EmptyString
  end.

(** Line 20: [root[root.rfind("_")+1:]]. *)
Definition qa_id (root : string) : string :=
  string_drop (Z.to_nat (rfind "_"%char root + 1)) root.

(** Whether a character occurs in a string. *)
Fixpoint occurs_char (c : ascii) (s : string) : bool :=
  match s with
  | EmptyString => false
  | String x s' => bool_decide (x = c) || occurs_char c s'
  end.

End GenerateTest2.

(** * Properties *)

Section MetaLearnerFacts.
Context `{Sub : Substrate}.

(** ** Stepping through computations *)

Lemma bind_Ok {A B} (m : M A) (k : A → M B) w r :
  (m ≫= k) w = Ok r ↔ ∃ a w1, m w = Ok (a, w1) ∧ k a w1 = Ok r.
Proof.
  unfold mbind, M_bind, bind. split.
  - destruct (m w) as [[a w1]|e]; [eauto | discriminate].
  - intros (a & w1 & -> & Hk). exact Hk.
Qed.

Lemma bind_Raise {A B} (m : M A) (k : A → M B) w e :
  m w = Raise e → (m ≫= k) w = Raise e.
Proof. unfold mbind, M_bind, bind. by intros ->. Qed.

Lemma bind_step {A B} (m : M A) (k : A → M B) w a w1 :
  m w = Ok (a, w1) → (m ≫= k) w = k a w1.
Proof. unfold mbind, M_bind, bind. by intros ->. Qed.

Lemma mret_Ok {A} (a : A) w r : (mret a : M A) w = Ok r ↔ r = (a, w).
Proof. unfold mret, M_ret, ret. split; [by intros [= <-] | by intros ->]. Qed.

Lemma print_Ok s w r :
  print s w = Ok r ↔
  r = (tt, mkWorld (w_ext w) (w_heap w) (w_stdout w ++ [s]) (w_log w)).
Proof. unfold print. split; [by intros [= <-] | by intros ->]. Qed.

Lemma dict_deref_Ok r w d w' :
  dict_deref r w = Ok (d, w') ↔ w_heap w !! r = Some d ∧ w' = w.
Proof.
  unfold dict_deref. destruct (w_heap w !! r) as [d'|]; split.
  - by intros [= -> ->].
  - by intros [[= ->] ->].
  - discriminate.
  - by intros [? _].
Qed.

Lemma dict_getitem_Ok r key w t w' :
  dict_getitem r key w = Ok (t, w') ↔
  ∃ d, w_heap w !! r = Some d ∧ d !! key = Some t ∧ w' = w.
Proof.
  unfold dict_getitem. rewrite bind_Ok. split.
  - intros (d & w1 & [Hd ->]%dict_deref_Ok & Hk).
    destruct (d !! key) as [t'|] eqn:Ht; [|discriminate].
    apply mret_Ok in Hk as [= -> ->]. eauto.
  - intros (d & Hd & Ht & ->). exists d, w. split; [by apply dict_deref_Ok|].
    rewrite Ht. by apply mret_Ok.
Qed.

Lemma dict_setitem_Ok r key t w u w' :
  dict_setitem r key t w = Ok (u, w') ↔
  ∃ d, w_heap w !! r = Some d ∧
       w' = set_heap (<[r := <[key := t]> d]> (w_heap w)) w.
Proof.
  unfold dict_setitem. destruct (w_heap w !! r) as [d|]; split.
  - intros [= ? <-]. eauto.
  - intros (d' & [= <-] & ->). by destruct u.
  - discriminate.
  - by intros (? & ? & _).
Qed.

(** ** update_params *)

Lemma list_to_map_zip_mapM (f : Tensor → option Tensor)
    (l : list (string * Tensor)) (grads : list Tensor) :
  mapM f l.*2 = Some grads →
  (list_to_map (zip l.*1 grads) : gmap string Tensor) = omap f (list_to_map l).
Proof.
  rewrite mapM_Some. revert grads.
  induction l as [|[k v] l IH]; intros grads Hm; simpl in *.
  - by rewrite omap_empty.
  - apply Forall2_cons_inv_l in Hm as (g & gs & Hg & Hgs & ->). simpl.
    rewrite (omap_insert_Some f _ k v g Hg). f_equal. by apply IH.
Qed.

Lemma heap_lookup_new (h0 : list (gmap string Tensor)) u ng :
  (h0 ++ [u; ng]) !! length h0 = Some u ∧
  (h0 ++ [u; ng]) !! S (length h0) = Some ng.
Proof.
  split.
  - by rewrite lookup_app_r, Nat.sub_diag.
  - rewrite lookup_app_r by lia.
    by replace (S (length h0) - length h0) with 1 by lia.
Qed.

Lemma update_params_body_Ok r ng lr h0 u nwc key w w' :
  w_heap w = h0 ++ [u; ng] → h0 !! r = Some nwc →
  update_params_body r (S (length h0)) lr (length h0) key tt w = Ok (tt, w') →
  ∃ t g, nwc !! key = Some t ∧ ng !! key = Some g ∧
    w_heap w' = h0 ++ [<[key := tsub t (smul lr g)]> u; ng] ∧
    w_ext w' = w_ext w ∧ w_log w' = w_log w.
Proof.
  intros Hh Hr H. unfold update_params_body in H.
  assert (Hlt : r < length h0) by (by eapply lookup_lt_Some).
  destruct (heap_lookup_new h0 u ng) as [Hu Hng].
  apply bind_Ok in H as (? & w1 & [= -> ->]%print_Ok & H).
  apply bind_Ok in H as (? & w2 & [= -> ->]%print_Ok & H).
  apply bind_Ok in H as (t & w3 & (d & Hd & Ht & ->)%dict_getitem_Ok & H).
  simpl in Hd. rewrite Hh, lookup_app_l, Hr in Hd by done. injection Hd as <-.
  apply bind_Ok in H as (? & w4 & [= -> ->]%print_Ok & H).
  apply bind_Ok in H as (? & w5 & [= -> ->]%print_Ok & H).
  apply bind_Ok in H as (g & w6 & (d & Hd & Hg & ->)%dict_getitem_Ok & H).
  simpl in Hd. rewrite Hh, Hng in Hd. injection Hd as <-.
  apply bind_Ok in H as (? & w7 & [= -> ->]%print_Ok & H).
  apply bind_Ok in H as (t' & w8 & (d & Hd & Ht' & ->)%dict_getitem_Ok & H).
  simpl in Hd. rewrite Hh, lookup_app_l, Hr in Hd by done. injection Hd as <-.
  rewrite Ht in Ht'. injection Ht' as <-.
  apply bind_Ok in H as (g' & w9 & (d & Hd & Hg' & ->)%dict_getitem_Ok & H).
  simpl in Hd. rewrite Hh, Hng in Hd. injection Hd as <-.
  rewrite Hg in Hg'. injection Hg' as <-.
  apply bind_Ok in H as (? & w10 & (d & Hd & ->)%dict_setitem_Ok & H).
  simpl in Hd. rewrite Hh, Hu in Hd. injection Hd as <-.
  apply bind_Ok in H as (? & w11 & [= -> ->]%print_Ok & H).
  apply bind_Ok in H as (? & w12 & (d & _ & _ & ->)%dict_getitem_Ok & H).
  apply print_Ok in H as [= ->]. simpl.
  exists t, g. repeat split; try done.
  rewrite Hh. rewrite insert_app_r_alt, Nat.sub_diag by done. done.
Qed.

Lemma update_params_loop_Ok r ng lr h0 nwc ks : ∀ u w w',
  w_heap w = h0 ++ [u; ng] → h0 !! r = Some nwc →
  for_each ks (update_params_body r (S (length h0)) lr (length h0)) tt w
    = Ok (tt, w') →
  ∃ u', w_heap w' = h0 ++ [u'; ng] ∧ w_ext w' = w_ext w ∧ w_log w' = w_log w ∧
    ∀ k, u' !! k =
         if decide (k ∈ ks) then updated_value nwc ng lr k else u !! k.
Proof.
  induction ks as [|key ks IH]; intros u w w' Hh Hr H; simpl in H.
  - apply mret_Ok in H as [= <-]. exists u. by repeat split.
  - apply bind_Ok in H as ([] & w1 & Hb & H).
    destruct (update_params_body_Ok _ _ _ _ _ _ _ _ _ Hh Hr Hb)
      as (t & g & Ht & Hg & Hh1 & He1 & Hl1).
    destruct (IH _ _ _ Hh1 Hr H) as (u' & Hh' & He' & Hl' & Hu').
    exists u'. repeat split; try congruence.
    intros k. rewrite Hu'. destruct (decide (k ∈ ks)) as [Hin|Hnin].
    + by rewrite decide_True by (by right).
    + destruct (decide (k = key)) as [->|Hne].
      * rewrite decide_True by left. rewrite lookup_insert_eq.
        unfold updated_value. by rewrite Ht, Hg.
      * rewrite decide_False by (by intros [?|?]%elem_of_cons).
        by rewrite lookup_insert_ne.
Qed.

Lemma ext_do_Ok f w r : ext_do f w = Ok r ↔ r = (tt, set_ext (f (w_ext w)) w).
Proof. unfold ext_do. split; [by intros [= <-] | by intros ->]. Qed.

Lemma dict_new_Ok w r :
  dict_new w = Ok r ↔ r = (length (w_heap w), set_heap (w_heap w ++ [∅]) w).
Proof. unfold dict_new. split; [by intros [= <-] | by intros ->]. Qed.

Lemma elem_of_keys_is_Some (m : gmap string Tensor) (k : string) :
  k ∈ (map_to_list m).*1 ↔ is_Some (m !! k).
Proof.
  rewrite list_elem_of_fmap. split.
  - intros ([k' t] & -> & Hin%elem_of_map_to_list). by exists t.
  - intros [t Ht]. exists (k, t). split; [done|]. by apply elem_of_map_to_list.
Qed.

Lemma dict_of_Ok d w r :
  dict_of d w = Ok r ↔ r = (length (w_heap w), set_heap (w_heap w ++ [d]) w).
Proof. unfold dict_of. split; [by intros [= <-] | by intros ->]. Qed.

(** What a call of [update_params] that returns has done. *)
Lemma update_params_inv self loss r lr fo w r' w' :
  update_params self loss r lr fo w = Ok (r', w') →
  ∃ nwc o updated,
    w_heap w !! r = Some nwc ∧ loss = PyTensor o ∧
    r' = length (w_heap w) ∧
    (∃ ngw, w_heap w' = w_heap w ++ [updated; ngw]) ∧
    w_ext w' = autograd_after (negb fo) o (net_zero_grad (Some nwc) (w_ext w)) ∧
    w_log w' = w_log w ∧
    (∀ key, updated !! key =
       t ← nwc !! key;
       g ← autograd_partial (negb fo) o t (net_zero_grad (Some nwc) (w_ext w));
       Some (tsub t (smul lr g))) ∧
    (∀ key t, nwc !! key = Some t →
       is_Some (autograd_partial (negb fo) o t
                  (net_zero_grad (Some nwc) (w_ext w)))).
Proof.
  intros H. unfold update_params in H.
  apply bind_Ok in H as (nwc & w1 & [Hr ->]%dict_deref_Ok & H).
  apply bind_Ok in H as (? & w2 & [= -> ->]%ext_do_Ok & H).
  apply bind_Ok in H as (grads & w3 & Hg & H).
  destruct loss as [x|o]; [discriminate|]. unfold autograd_grad in Hg.
  destruct ((map_to_list nwc).*2) as [|i0 l0] eqn:Hin; [discriminate|].
  rewrite <- Hin in Hg. simpl in Hg.
  set (e1 := net_zero_grad (Some nwc) (w_ext w)) in *.
  destruct (mapM _ _) as [gs|] eqn:Hm in Hg; [|discriminate].
  injection Hg as -> <-.
  apply bind_Ok in H as (ru & w4 & [= -> ->]%dict_new_Ok & H).
  assert (Hlt : r < length (w_heap w)) by (by eapply lookup_lt_Some).
  apply bind_Ok in H as (nwc' & w5 & [Hr' ->]%dict_deref_Ok & H).
  simpl in Hr'. rewrite lookup_app_l, Hr in Hr' by done. injection Hr' as <-.
  apply bind_Ok in H as (rg & w6 & [= -> ->]%dict_of_Ok & H).
  simpl in H. rewrite length_app in H. simpl in H.
  replace (length (w_heap w) + 1) with (S (length (w_heap w))) in H by lia.
  rewrite <- app_assoc in H. simpl in H.
  pose proof (list_to_map_zip_mapM _ _ _ Hm) as Hng.
  rewrite list_to_map_to_list in Hng. rewrite Hng in H.
  set (ng := omap _ nwc) in *.
  destruct (heap_lookup_new (w_heap w) ∅ ng) as [_ Hlng].
  apply bind_Ok in H as (ngw & w7 & [Hr' ->]%dict_deref_Ok & H).
  simpl in Hr'. rewrite Hlng in Hr'. injection Hr' as <-.
  apply bind_Ok in H as ([] & w8 & Hloop & H).
  apply mret_Ok in H as [= <- <-].
  eapply (update_params_loop_Ok r ng lr (w_heap w) nwc _ ∅) in Hloop
    as (u' & Hh' & He' & Hl' & Hu'); [|done..].
  exists nwc, o, u'. repeat split; try done.
  - by exists ng.
  - intros key. rewrite Hu'. unfold updated_value.
    destruct (decide _) as [Hin'|Hnin].
    + unfold ng. rewrite lookup_omap. by destruct (nwc !! key).
    + unfold ng in Hnin. rewrite elem_of_keys_is_Some, lookup_omap in Hnin.
      rewrite lookup_empty. destruct (nwc !! key) as [t|]; simpl in *; [|done].
      destruct (autograd_partial _ _ _ _) eqn:E; [|done].
      exfalso. apply Hnin. by eexists.
  - intros key t Ht. apply mapM_Some in Hm.
    apply elem_of_map_to_list in Ht.
    apply (list_elem_of_fmap_2 snd) in Ht. simpl in Ht.
    apply list_elem_of_lookup in Ht as [i Hi].
    destruct (Forall2_lookup_l _ _ _ _ _ Hm Hi) as (g & _ & Hg).
    by exists g.
Qed.

(** ** The sampling loop of inner_loss *)

Lemma duplicate_flag_elem_of (action_memory : list (list Z)) (actions : list Z) :
  duplicate_flag action_memory actions = bool_decide (actions ∈ action_memory).
Proof.
  unfold duplicate_flag, duplicate.
  induction action_memory as [|x l IH].
  - symmetry. apply bool_decide_eq_false_2. apply not_elem_of_nil.
  - simpl. rewrite IH. destruct (decide (x = actions)) as [->|Hne].
    + rewrite bool_decide_eq_true_2 by done. simpl. symmetry.
      apply bool_decide_eq_true. left.
    + rewrite (bool_decide_eq_false_2 (x = actions)) by done. simpl.
      apply bool_decide_ext. rewrite elem_of_cons.
      split; [by right | by intros [->|?]].
Qed.

(** One turn, computed: a repeated sequence only moves the two counters. *)
Lemma sampling_step_eq self ie beg ctx ar mem a w :
  let d := draw_at self ie beg ctx w in
  ∃ w',
    sampling_step self ie beg ctx ar (mem, a) w =
      Ok (if bool_decide (d.1.2 ∈ mem)
          then (mem,
                mkAcc (net_policies a) (net_actions a) (net_advantages a)
                  (total_samples a + 1) (skipped_samples a + 1))
          else (mem ++ [d.1.2],
                mkAcc (net_policies a ++ [d.1.1]) (net_actions a ++ d.1.2)
                  (net_advantages a
                     ++ replicate (length d.1.2) (fsub d.2 ar))
                  (total_samples a + 1) (skipped_samples a)),
          w') ∧
    w_heap w' = w_heap w ∧ w_log w' = w_log w ∧ w_stdout w' = w_stdout w.
Proof.
  unfold draw_at, sampling_step, mbind, M_bind, bind, ext_call, mret, M_ret, ret.
  destruct (net_decode_chain_sampling _ _ _ _ _ _) as [[r_sample actions] e1].
  simpl. rewrite duplicate_flag_elem_of.
  destruct (bool_decide (actions ∈ mem)); simpl.
  - by eexists.
  - destruct (random_random e1) as [reward e2]. simpl. by eexists.
Qed.

Lemma sampling_loop_run self ie beg ctx ar : ∀ n i mem a w seen,
  (∀ x, x ∈ mem ↔ x ∈ seen) →
  ∃ mem' a' w',
    for_each (seq i n) (λ _, sampling_step self ie beg ctx ar) (mem, a) w
      = Ok ((mem', a'), w') ∧
    let tr := sampling_trace self ie beg ctx ar n (mem, a) w in
    let kept := kept_draws seen tr in
    mem' = mem ++ kept.*1.*2 ∧
    net_policies a' = net_policies a ++ kept.*1.*1 ∧
    net_actions a' = net_actions a ++ concat kept.*1.*2 ∧
    net_advantages a' =
      net_advantages a ++ (kept ≫= λ d, replicate (length d.1.2) (fsub d.2 ar)) ∧
    total_samples a' = total_samples a + n ∧
    skipped_samples a' = skipped_samples a + duplicate_draws seen tr ∧
    length tr = n ∧
    w_heap w' = w_heap w ∧ w_log w' = w_log w.
Proof.
  induction n as [|n IH]; intros i mem a w seen Hseen;
    cbn [for_each sampling_trace seq].
  - exists mem, a, w. simpl. rewrite !app_nil_r, !Nat.add_0_r. by repeat split.
  - destruct (sampling_step_eq self ie beg ctx ar mem a w)
      as (w1 & Hstep & Hh1 & Hl1 & _).
    set (d := draw_at self ie beg ctx w) in *.
    rewrite Hstep. rewrite (bind_step _ _ _ _ _ Hstep).
    cbn [kept_draws duplicate_draws length].
    rewrite <- (bool_decide_ext _ _ (Hseen d.1.2)).
    destruct (bool_decide (d.1.2 ∈ mem)) eqn:Hd.
    + apply bool_decide_eq_true in Hd.
      match goal with |- context [for_each _ _ (_, ?a1) w1] =>
        destruct (IH (S i) mem a1 w1 (d.1.2 :: seen)) as
          (mem' & a' & w' & Hrun & Hm & Hp & Ha & Hv & Ht & Hs & Hlen & Hh & Hl)
      end.
      { intros x. rewrite elem_of_cons, <- Hseen.
        split; [by right | by intros [->|?]]. }
      exists mem', a', w'. simpl in *. repeat split; try done; try congruence; lia.
    + apply bool_decide_eq_false in Hd.
      match goal with |- context [for_each _ _ (_, ?a1) w1] =>
        destruct (IH (S i) (mem ++ [d.1.2]) a1 w1 (d.1.2 :: seen)) as
          (mem' & a' & w' & Hrun & Hm & Hp & Ha & Hv & Ht & Hs & Hlen & Hh & Hl)
      end.
      { intros x. rewrite elem_of_app, list_elem_of_singleton, elem_of_cons, <- Hseen.
        tauto. }
      exists mem', a', w'. split; [exact Hrun|]. simpl in *.
      rewrite Hm, Hp, Ha, Hv, <- !app_assoc. simpl.
      repeat split; try done; try congruence; lia.
Qed.

(** The kept sequences of an example are pairwise different, and none of
    them was seen before. *)
Lemma kept_draws_NoDup (tr : list (Tensor * list Z * F)) : ∀ seen,
  NoDup (kept_draws seen tr).*1.*2 ∧
  ∀ x, x ∈ (kept_draws seen tr).*1.*2 → x ∉ seen.
Proof.
  induction tr as [|d tr IH]; intros seen; simpl.
  - split; [constructor|]. intros x Hx. by apply not_elem_of_nil in Hx.
  - destruct (IH (d.1.2 :: seen)) as [Hnd Hfresh].
    destruct (bool_decide (d.1.2 ∈ seen)) eqn:Hd.
    + split; [done|]. intros x Hx Hin. apply (Hfresh x Hx). by right.
    + apply bool_decide_eq_false in Hd. simpl. split.
      * constructor; [|done]. intros Hin. apply (Hfresh _ Hin). left.
      * intros x [->|Hx]%elem_of_cons; [done|].
        intros Hin. apply (Hfresh x Hx). by right.
Qed.

(** Every decode is kept or counted as a repeat. *)
Lemma kept_plus_duplicates (tr : list (Tensor * list Z * F)) : ∀ seen,
  length (kept_draws seen tr) + duplicate_draws seen tr = length tr.
Proof.
  induction tr as [|d tr IH]; intros seen; simpl; [done|].
  specialize (IH (d.1.2 :: seen)).
  destruct (bool_decide (d.1.2 ∈ seen)); simpl; lia.
Qed.

(** ** The loop over the batch *)

Lemma ext_call_Ok {A} (f : Ext → A * Ext) w r :
  ext_call f w = Ok r ↔ r = ((f (w_ext w)).1, set_ext (f (w_ext w)).2 w).
Proof.
  unfold ext_call. destruct (f (w_ext w)) as [a e]. simpl.
  split; [by intros [= <-] | by intros ->].
Qed.

Lemma example_head_Ok self ob ctx enc beg idx w r w1 :
  example_head self ob ctx enc beg idx w = Ok (r, w1) →
  r = (net_get_encoded_item enc idx, baseline_at self ctx enc beg idx w) ∧
  w_heap w1 = w_heap w ∧ w_log w1 = w_log w.
Proof.
  unfold example_head, baseline_at. intros H.
  apply bind_Ok in H as (q & w2 & Hq & H).
  destruct (ob !! idx); [|discriminate]. apply mret_Ok in Hq as [= -> ->].
  apply bind_Ok in H as (? & w3 & [= -> ->]%print_Ok & H).
  apply bind_Ok in H as ([ra act] & w4 & Hdec%ext_call_Ok & H).
  simpl in Hdec.
  destruct (net_decode_chain_argmax _ _ _ _ _ (w_ext w)) as [[ra' act'] e1].
  injection Hdec as -> -> ->.
  apply bind_Ok in H as (ar & w5 & [= -> ->]%ext_call_Ok & H).
  apply mret_Ok in H. injection H as -> ->. done.
Qed.

Lemma kept_pair_snd (b : F) (k : list (Tensor * list Z * F)) :
  (pair b <$> k).*2 = k.
Proof. induction k; simpl; [done|]. by f_equal. Qed.

Lemma kept_pair_advantages (b : F) (k : list (Tensor * list Z * F)) :
  (pair b <$> k) ≫= sample_advantages =
  k ≫= λ d, replicate (length d.1.2) (fsub d.2 b).
Proof. induction k; simpl; [done|]. by f_equal. Qed.

Lemma examples_run self ob ctx enc beg : ∀ items a w a' w',
  for_each items (example_body self ob ctx enc beg) a w = Ok (a', w') →
  let obs := examples_trace self ob ctx enc beg items a w in
  let kept := kept_samples obs in
  length obs = length items ∧
  net_policies a' = net_policies a ++ kept.*2.*1.*1 ∧
  net_actions a' = net_actions a ++ concat kept.*2.*1.*2 ∧
  net_advantages a' = net_advantages a ++ (kept ≫= sample_advantages) ∧
  total_samples a' = total_samples a + sum_list (length ∘ snd <$> obs) ∧
  skipped_samples a' =
    skipped_samples a + sum_list (duplicate_draws [] ∘ snd <$> obs) ∧
  Forall (λ o, length o.2 = Z.to_nat (samples self)) obs ∧
  w_heap w' = w_heap w ∧ w_log w' = w_log w.
Proof.
  induction items as [|[idx inp] items IH]; intros a w a' w' H;
    cbn [for_each examples_trace] in *.
  - apply mret_Ok in H as [= <- <-]. simpl.
    rewrite !app_nil_r, !Nat.add_0_r. by repeat split.
  - apply bind_Ok in H as (a1 & w1 & Hbody & H).
    rewrite Hbody. unfold example_body in Hbody.
    apply bind_Ok in Hbody as ([ie ar] & w2 & Hhead & Hbody).
    simpl. rewrite Hhead.
    destruct (example_head_Ok _ _ _ _ _ _ _ _ _ Hhead) as ([= -> ->] & Hh2 & Hl2).
    apply bind_Ok in Hbody as ([mem a2] & w3 & Hloop & Hbody).
    apply mret_Ok in Hbody as [= -> ->]. unfold sampling_loop in Hloop.
    destruct (sampling_loop_run self (net_get_encoded_item enc idx) beg
                (tensor_getitem ctx idx) (baseline_at self ctx enc beg idx w)
                (Z.to_nat (samples self)) 0 [] a w2 [])
      as (mem' & a1' & w1' & Hrun & Hm & Hp & Ha & Hv & Ht & Hs & Hlen & Hh & Hl);
      [done|].
    rewrite Hrun in Hloop. injection Hloop as -> -> ->.
    destruct (IH _ _ _ _ H) as (Hlen' & Hp' & Ha' & Hv' & Ht' & Hs' & Hall & Hh' & Hl').
    set (tr := sampling_trace _ _ _ _ _ _ _ _) in *.
    set (obs := examples_trace _ _ _ _ _ _ _ _) in *.
    unfold kept_samples in *. cbn [mbind list_bind fmap list_fmap]. simpl.
    rewrite !fmap_app, concat_app, bind_app, kept_pair_snd, kept_pair_advantages.
    rewrite Hp', Ha', Hv', Ht', Hs', Hp, Ha, Hv, Ht, Hs, !app_assoc.
    repeat split; try done; try congruence; try lia.
    constructor; done.
Qed.

(** ** inner_loss as a whole *)

Lemma inner_loss_head_Ok self task ws w r w0 :
  inner_loss_head self task ws w = Ok (r, w0) →
  w_heap w0 = w_heap w ∧ w_log w0 = w_log w.
Proof.
  unfold inner_loss_head. intros H.
  apply bind_Ok in H as ([] & w1 & Hins & H).
  assert (w_heap w1 = w_heap w ∧ w_log w1 = w_log w) as [Hh1 Hl1].
  { destruct ws as [r0|].
    - apply bind_Ok in Hins as (d & w2 & [_ ->]%dict_deref_Ok & Hins).
      by apply ext_do_Ok in Hins as [= ->].
    - by apply mret_Ok in Hins as [= ->]. }
  apply bind_Ok in H as ([[? ?] ?] & w2 & Hp & H).
  unfold ext_read in Hp. injection Hp as _ <-.
  apply bind_Ok in H as ([? ?] & w3 & [= _ ->]%ext_call_Ok & H).
  apply bind_Ok in H as (? & w4 & [= _ ->]%ext_call_Ok & H).
  by apply mret_Ok in H as [= -> ->].
Qed.

(** What a call of [inner_loss] that returns has done, in terms of the
    decodes it drew. *)
Lemma inner_loss_inv self task ws w loss tot sk w' :
  inner_loss self task ws w = Ok ((loss, tot, sk), w') →
  ∃ input_batch output_batch context enc beg w0,
    inner_loss_head self task ws w
      = Ok ((input_batch, output_batch, context, enc, beg), w0) ∧
    let obs := examples_trace self output_batch context enc beg
                 (zip (seq 0 (length input_batch)) input_batch) acc_init w0 in
    let kept := kept_samples obs in
    length obs = length input_batch ∧
    Forall (λ o, length o.2 = Z.to_nat (samples self)) obs ∧
    tot = sum_list (length ∘ snd <$> obs) ∧
    sk = sum_list (duplicate_draws [] ∘ snd <$> obs) ∧
    match kept with
    | [] =>
        loss = PyFloat f_zero ∧
        w_log w' = w_log w ++ ["The net_policies is empty!"]
    | _ :: _ =>
        loss = PyTensor (policy_loss self kept.*2.*1.*1
                           (concat kept.*2.*1.*2) (kept ≫= sample_advantages)) ∧
        w_log w' = w_log w
    end ∧
    w_heap w' = w_heap w.
Proof.
  unfold inner_loss. intros H.
  apply bind_Ok in H as ([[[[ib ob] ctx] enc] beg] & w0 & Hhead & H).
  destruct (inner_loss_head_Ok _ _ _ _ _ _ Hhead) as [Hh0 Hl0].
  apply bind_Ok in H as (a & w1 & Hloop & H).
  apply examples_run in Hloop
    as (Hlen & Hp & Ha & Hv & Ht & Hs & Hall & Hh & Hl).
  exists ib, ob, ctx, enc, beg, w0. split; [done|].
  set (obs := examples_trace _ _ _ _ _ _ _ _) in *.
  simpl in *. rewrite length_zip, length_seq, Nat.min_id in Hlen.
  destruct (kept_samples obs) as [|k kept] eqn:Hk; simpl in *.
  - rewrite Hp in H.
    apply bind_Ok in H as (? & w2 & Hlog & H). unfold log_info in Hlog.
    injection Hlog as _ <-. apply mret_Ok in H as [= -> -> -> ->]. simpl.
    repeat split; try done; congruence.
  - rewrite Hp in H. apply mret_Ok in H as [= -> -> -> ->].
    rewrite ?Hp, ?Ha, ?Hv. repeat split; try done; congruence.
Qed.

(** ** sample *)

Lemma as_tensors_Some (l : list pyval) (ts : list Tensor) :
  as_tensors l = Some ts ↔ l = PyTensor <$> ts.
Proof.
  revert ts. induction l as [|[x|t] l IH]; intros ts; simpl.
  - split; [intros [= <-]; done | by destruct ts].
  - split; [done | by destruct ts].
  - destruct (as_tensors l) as [ts'|]; simpl.
    + split.
      * intros [= <-]. simpl. f_equal. by apply IH.
      * destruct ts as [|t' ts]; [done|]. intros [= -> Hl].
        apply IH in Hl. by injection Hl as ->.
    + split; [done|]. destruct ts as [|t' ts]; [done|]. intros [= -> Hl].
      by apply IH in Hl.
Qed.

Lemma torch_stack_Ok (l : list pyval) w t w' :
  torch_stack l w = Ok (t, w') ↔
  l ≠ [] ∧ ∃ ts, l = PyTensor <$> ts ∧ t = tstack ts ∧ w' = w.
Proof.
  unfold torch_stack. destruct l as [|v l].
  - split; [done | by intros [? _]].
  - destruct (as_tensors (v :: l)) as [ts|] eqn:Hts.
    + apply as_tensors_Some in Hts. split.
      * intros [= -> ->]%mret_Ok. split; [done|]. by exists ts.
      * intros (_ & ts' & Hl & -> & ->). rewrite Hts in Hl.
        assert (Some ts = Some ts') as [= ->].
        { rewrite <- (proj2 (as_tensors_Some _ ts) eq_refl).
          by apply as_tensors_Some. }
        by apply mret_Ok.
    + split; [done|]. intros (_ & ts & Hl & _).
      apply as_tensors_Some in Hl. congruence.
Qed.

Lemma sample_body_Ok self task tl tot sk w tl' tot' sk' w' :
  sample_body self task (tl, tot, sk) w = Ok ((tl', tot', sk'), w') ↔
  ∃ r, task_run self task w r w' ∧ tl' = tl ++ [meta_loss r] ∧
       tot' = tot + total1 r + total2 r ∧ sk' = sk + skipped1 r + skipped2 r.
Proof.
  unfold sample_body, task_run. split.
  - intros H.
    apply bind_Ok in H as (ps & w0 & Hps & H).
    unfold ext_read in Hps. injection Hps as <- <-.
    apply bind_Ok in H as (r0 & w1 & H0 & H).
    apply bind_Ok in H as ([[l1 n1] s1] & w2 & H1 & H).
    apply bind_Ok in H as (r1 & w3 & H2 & H).
    apply bind_Ok in H as ([[l2 n2] s2] & w4 & H3 & H).
    apply bind_Ok in H as (r2 & w5 & H4 & H).
    apply bind_Ok in H as ([[ml n3] s3] & w6 & H5 & H).
    apply mret_Ok in H as [= -> -> -> ->].
    exists (mkTaskRun r0 l1 n1 s1 r1 l2 n2 s2 r2 ml n3 s3). simpl.
    split; [|done]. by exists w1, w2, w3, w4, w5.
  - intros ([r0 l1 n1 s1 r1 l2 n2 s2 r2 ml n3 s3] & Hrun & -> & -> & ->).
    simpl in *. destruct Hrun as (w1 & w2 & w3 & w4 & w5 & H0 & H1 & H2 & H3 & H4 & H5).
    apply bind_Ok. eexists _, w. split; [done|].
    apply bind_Ok. eexists _, _. split; [exact H0|].
    apply bind_Ok. eexists (_, _, _), _. split; [exact H1|].
    apply bind_Ok. eexists _, _. split; [exact H2|].
    apply bind_Ok. eexists (_, _, _), _. split; [exact H3|].
    apply bind_Ok. eexists _, _. split; [exact H4|].
    apply bind_Ok. eexists (_, _, _), _. split; [exact H5|].
    by apply mret_Ok.
Qed.

Lemma sample_loop_Ok self : ∀ tasks tl tot sk w tl' tot' sk' w',
  for_each tasks (sample_body self) (tl, tot, sk) w
    = Ok ((tl', tot', sk'), w') ↔
  ∃ rs, batch_run self tasks w rs w' ∧ tl' = tl ++ (meta_loss <$> rs) ∧
        tot' = tot + sum_list ((λ r, total1 r + total2 r) <$> rs) ∧
        sk' = sk + sum_list ((λ r, skipped1 r + skipped2 r) <$> rs).
Proof.
  induction tasks as [|task tasks IH]; intros tl tot sk w tl' tot' sk' w';
    cbn [for_each].
  - rewrite mret_Ok. split.
    + intros [= -> -> -> ->]. exists []. simpl.
      rewrite app_nil_r, !Nat.add_0_r. split; [constructor|done].
    + intros (rs & Hrun & -> & -> & ->). inversion Hrun; subst. simpl.
      by rewrite app_nil_r, !Nat.add_0_r.
  - rewrite bind_Ok. split.
    + intros ([[tl1 tot1] sk1] & w1 & (r & Hr & -> & -> & ->)%sample_body_Ok & H).
      apply IH in H as (rs & Hrs & -> & -> & ->).
      exists (r :: rs). csimpl. rewrite <- app_assoc. csimpl.
      split; [by econstructor|]. repeat split; try done; lia.
    + intros (rs & Hrun & -> & -> & ->).
      inversion Hrun as [|? ? ? r w1 rs' ? Hr Hrs]; subst.
      exists (tl ++ [meta_loss r], tot + total1 r + total2 r,
              sk + skipped1 r + skipped2 r), w1.
      split; [apply sample_body_Ok; by exists r|].
      apply IH. exists rs'. csimpl. rewrite <- app_assoc. csimpl.
      split; [done|]. repeat split; try done; lia.
Qed.

(** A call of [sample] returns exactly when the batch is not empty, every
    task goes through its five steps, and every meta-loss is a tensor. *)
Lemma sample_Ok self tasks fo w m tot sk w' :
  sample self tasks fo w = Ok ((m, tot, sk), w') ↔
  ∃ rs ts,
    tasks ≠ [] ∧
    batch_run self tasks (set_ext (net_zero_grad None (w_ext w)) w) rs w' ∧
    meta_loss <$> rs = PyTensor <$> ts ∧
    m = tmean (tstack ts) ∧
    tot = sum_list ((λ r, total1 r + total2 r) <$> rs) ∧
    sk = sum_list ((λ r, skipped1 r + skipped2 r) <$> rs).
Proof.
  unfold sample. rewrite bind_Ok. split.
  - intros (? & w0 & [= _ ->]%ext_do_Ok & H).
    apply bind_Ok in H as ([[tl tot1] sk1] & w1 & Hloop & H).
    apply sample_loop_Ok in Hloop as (rs & Hrun & -> & -> & ->).
    apply bind_Ok in H as (t & w2 & (Hne & ts & Hts & -> & ->)%torch_stack_Ok & H).
    apply mret_Ok in H as [= -> -> -> ->]. simpl in *.
    exists rs, ts. repeat split; try done.
    intros ->. inversion Hrun; subst. done.
  - intros (rs & ts & Hne & Hrun & Hts & -> & -> & ->).
    eexists tt, _. split; [by apply ext_do_Ok|].
    apply bind_Ok. eexists (_, _, _), _. split.
    { apply sample_loop_Ok. exists rs. split; [exact Hrun|]. by simpl. }
    apply bind_Ok. eexists _, _. split.
    { apply torch_stack_Ok. split; [|by exists ts].
      destruct Hrun; [done|]. csimpl. intros Heq.
      rewrite ?Heq in Hts. csimpl in Hts. congruence. }
    by apply mret_Ok.
Qed.

(** ** Where update_params raises *)

Lemma update_params_float self x r lr fo w :
  is_Some (w_heap w !! r) →
  update_params self (PyFloat x) r lr fo w = Raise TypeError.
Proof.
  intros [nwc Hr]. unfold update_params.
  erewrite bind_step by (by apply dict_deref_Ok).
  erewrite bind_step by (by apply ext_do_Ok).
  by apply bind_Raise.
Qed.

Lemma as_tensors_float (l : list pyval) (x : F) :
  as_tensors (l ++ [PyFloat x]) = None.
Proof.
  induction l as [|[y|t] l IH]; simpl; [done..|]. by rewrite IH.
Qed.

Lemma torch_stack_float (l : list pyval) (x : F) w :
  torch_stack (l ++ [PyFloat x]) w = Raise TypeError.
Proof.
  unfold torch_stack. rewrite as_tensors_float. by destruct l.
Qed.

(** ** get_inner_loop_parameter_dict *)

Lemma inner_loop_dict_loop dev (params : list (string * Tensor)) : ∀ h0 d w,
  w_heap w = h0 ++ [d] →
  for_each params (λ '(name, param) (_ : unit),
    if requires_grad param
    then dict_setitem (length h0) name (Tensor_to dev param)
    else mret tt) tt w =
  Ok (tt, set_heap
            (h0 ++ [foldl (λ d '(name, param),
                      if requires_grad param
                      then <[name := Tensor_to dev param]> d else d) d params])
            w).
Proof.
  induction params as [|[name param] params IH]; intros h0 d w Hh;
    cbn [for_each foldl].
  - unfold mret, M_ret, ret, set_heap. rewrite <- Hh. by destruct w.
  - destruct (requires_grad param).
    + erewrite bind_step.
      2:{ apply dict_setitem_Ok. exists d. split; [|done].
          rewrite Hh, lookup_app_r, Nat.sub_diag by done. done. }
      rewrite (IH h0 (<[name := Tensor_to dev param]> d)).
      * done.
      * simpl. rewrite Hh, insert_app_r_alt, Nat.sub_diag by done. done.
    + erewrite bind_step by (by apply mret_Ok). by apply IH.
Qed.

(** The call always returns: a new dictionary at the end of the heap. *)
Lemma get_inner_loop_parameter_dict_eq self params w :
  get_inner_loop_parameter_dict self params w =
  Ok (length (w_heap w),
      set_heap (w_heap w ++ [inner_loop_dict (device self) params]) w).
Proof.
  unfold get_inner_loop_parameter_dict.
  erewrite bind_step by (by apply dict_new_Ok).
  erewrite bind_step.
  2:{ apply (inner_loop_dict_loop (device self) params (w_heap w) ∅). done. }
  unfold mret, M_ret, ret, inner_loop_dict. simpl. done.
Qed.

Lemma inner_loop_dict_lookup dev (params : list (string * Tensor)) name p :
  NoDup params.*1 → (name, p) ∈ params →
  inner_loop_dict dev params !! name =
    if requires_grad p then Some (Tensor_to dev p) else None.
Proof.
  unfold inner_loop_dict. intros Hnd Hin.
  assert (Hgen : ∀ d : gmap string Tensor,
    foldl (λ d '(name, param),
             if requires_grad param then <[name := Tensor_to dev param]> d else d)
          d params !! name =
    if requires_grad p then Some (Tensor_to dev p) else d !! name).
  { revert Hnd Hin. induction params as [|[n q] params IH]; intros Hnd Hin d.
    - by apply not_elem_of_nil in Hin.
    - simpl in *. apply NoDup_cons in Hnd as [Hn Hnd].
      apply elem_of_cons in Hin as [[= -> ->]|Hin].
      + assert (Hskip : ∀ d' : gmap string Tensor,
          foldl (λ d '(name, param),
                   if requires_grad param
                   then <[name := Tensor_to dev param]> d else d)
                d' params !! n = d' !! n).
        { clear IH Hnd. induction params as [|[n' q'] params IH']; intros d';
            [done|]. simpl in *.
          apply not_elem_of_cons in Hn as [Hne Hn].
          rewrite IH' by done. destruct (requires_grad q'); [|done].
          by rewrite lookup_insert_ne. }
        rewrite Hskip. destruct (requires_grad q); [|done].
        by rewrite lookup_insert_eq.
      + rewrite IH by done. destruct (requires_grad p); [done|].
        destruct (requires_grad q); [|done].
        rewrite lookup_insert_ne; [done|]. intros ->. apply Hn.
        by apply (list_elem_of_fmap_2 fst) in Hin. }
  rewrite Hgen. by destruct (requires_grad p).
Qed.

(** For a parameter that requires grad and already lives on [self.device],
    the entry of the derived mapping is the parameter tensor itself: [.to]
    returns its argument, and the line with [.clone()] is commented out. *)
Lemma inner_loop_dict_entry_on_device self w name p :
  NoDup (net_named_parameters (w_ext w)).*1 →
  (name, p) ∈ net_named_parameters (w_ext w) →
  requires_grad p = true →
  tensor_device p = device self →
  ∃ r w' d,
    get_inner_loop_parameter_dict self (net_named_parameters (w_ext w)) w
      = Ok (r, w') ∧
    w_heap w !! r = None ∧
    w_heap w' !! r = Some d ∧
    d !! name = Some p.
Proof.
  intros Hnd Hin Hrg Hdev.
  eexists _, _, _. split; [apply get_inner_loop_parameter_dict_eq|].
  split; [by apply lookup_ge_None|]. split.
  { simpl. rewrite lookup_app_r, Nat.sub_diag by done. done. }
  rewrite (inner_loop_dict_lookup _ _ name p Hnd Hin), Hrg.
  unfold Tensor_to. by rewrite decide_True.
Qed.

(** ** Counting the kept samples *)

Lemma kept_samples_count (obs : list (F * list (Tensor * list Z * F))) :
  length (kept_samples obs) + sum_list (duplicate_draws [] ∘ snd <$> obs)
  = sum_list (length ∘ snd <$> obs).
Proof.
  unfold kept_samples. induction obs as [|[b tr] obs IH]; [done|]. csimpl.
  rewrite length_app, length_fmap.
  pose proof (kept_plus_duplicates tr []). lia.
Qed.

Lemma kept_samples_NoDup (obs : list (F * list (Tensor * list Z * F))) :
  Forall (λ o, NoDup (kept_draws [] o.2).*1.*2) obs.
Proof. apply Forall_forall. intros o _. apply kept_draws_NoDup. Qed.

(** ** The dictionaries of a task *)






End MetaLearnerFacts.

Section TrustRegionFacts.
Context `{T : Trpo}.

Lemma ls_step_size_succ ratio k :
  ls_step_size ratio (S k) = rmul (ls_step_size ratio k) ratio.
Proof. done. Qed.

(** The line search from a step size [s]: it stops at the first turn whose
    parameters pass the test, and runs out when none does. *)
Lemma line_search_from episodes old_pis old_loss old_params stp max_kl ratio :
  ∀ n s,
  let cand k := vsub old_params
                  (vscale (Nat.iter k (λ x, rmul x ratio) s) stp) in
  match line_search episodes old_pis old_loss old_params stp max_kl ratio n s with
  | Some p =>
      ∃ k, k < n ∧ p = cand k ∧
           ls_test episodes old_pis old_loss max_kl (cand k) = true ∧
           ∀ j, j < k → ls_test episodes old_pis old_loss max_kl (cand j) = false
  | None =>
      ∀ k, k < n → ls_test episodes old_pis old_loss max_kl (cand k) = false
  end.
Proof.
  induction n as [|n IH]; intros s cand; cbn [line_search].
  - intros k Hk. lia.
  - unfold ls_test in *.
    destruct (surrogate_loss episodes (Some old_pis)
                (vsub old_params (vscale s stp))) as [[loss kl] pis] eqn:Hs.
    destruct (rltb (rsub loss old_loss) r_zero && rltb kl max_kl) eqn:Ht.
    + exists 0. subst cand; cbn beta. cbn [Nat.iter nat_rect]. rewrite Hs. simpl.
      split; [lia|]. split; [done|]. split; [done|]. intros j Hj. lia.
    + specialize (IH (rmul s ratio)). cbn zeta in IH.
      assert (Hshift : ∀ k, Nat.iter k (λ x, rmul x ratio) (rmul s ratio)
                            = Nat.iter (S k) (λ x, rmul x ratio) s).
      { intros k. by rewrite Nat.iter_succ_r. }
      destruct (line_search _ _ _ _ _ _ _ n _) as [p|].
      * destruct IH as (k & Hk & -> & Hk1 & Hk2). exists (S k). subst cand; cbn beta.
        rewrite <- !Hshift. split; [lia|]. split; [done|]. split; [done|].
        intros [|j] Hj.
        -- cbn [Nat.iter nat_rect]. by rewrite Hs.
        -- rewrite <- Hshift. apply Hk2. lia.
      * intros [|k] Hk; subst cand; cbn beta.
        -- cbn [Nat.iter nat_rect]. by rewrite Hs.
        -- rewrite <- Hshift. apply IH. lia.
Qed.

End TrustRegionFacts.

(** * The claims *)

Section MetaLearnerClaims.
Context `{Sub : Substrate}.

(** C1.  A call of [sample] that returns has taken every task of the batch,
    in order, through the exact sequence: the mapping derived from the
    network's current parameters; the inner loss under it; one inner update;
    the inner loss under the updated mapping; a second inner update; the
    meta-loss under the twice-updated mapping; each step starts from the
    world the step before left ([batch_run], [task_run]).  The meta-loss it
    returns is the mean of the stack of the tasks' meta-losses, and
    [meta_update] on that mean is zero_grad, backward of the mean, and one
    step of the Adam optimizer. *)
Theorem sample_two_updates_then_meta_loss self tasks fo w m tot sk w' :
  sample self tasks fo w = Ok ((m, tot, sk), w') →
  ∃ rs ts,
    batch_run self tasks (set_ext (net_zero_grad None (w_ext w)) w) rs w' ∧
    length rs = length tasks ∧
    meta_loss <$> rs = PyTensor <$> ts ∧
    m = tmean (tstack ts) ∧
    ∃ lr eps,
      meta_optimizer self = Adam lr eps ∧
      meta_update self (PyTensor m) w' =
        Ok (tt, set_ext (optimizer_step (Adam lr eps)
                           (tensor_backward m
                              (optimizer_zero_grad (Adam lr eps) (w_ext w'))))
                  w').
Proof.
  intros (rs & ts & Hne & Hrun & Hts & -> & _ & _)%sample_Ok.
  exists rs, ts. split; [done|]. split.
  { clear Hts Hne. induction Hrun; simpl; [done|]. by f_equal. }
  split; [done|]. split; [done|].
  destruct (meta_optimizer self) as [lr eps] eqn:Hopt. exists lr, eps.
  split; [done|]. unfold meta_update. rewrite Hopt.
  erewrite bind_step by (by apply ext_do_Ok).
  erewrite bind_step by (by apply ext_do_Ok).
  unfold ext_do. simpl. done.
Qed.

(** C10.  The counts [sample] returns add up, over the tasks, the counts of
    the first and of the second [inner_loss] evaluation only; the counts of
    the third evaluation, the one that gives the meta-loss ([total3],
    [skipped3] of the task's run), are in neither sum. *)
Theorem sample_counts_leave_out_meta_evaluation self tasks fo w m tot sk w' :
  sample self tasks fo w = Ok ((m, tot, sk), w') →
  ∃ rs,
    batch_run self tasks (set_ext (net_zero_grad None (w_ext w)) w) rs w' ∧
    tot = sum_list ((λ r, total1 r + total2 r) <$> rs) ∧
    sk = sum_list ((λ r, skipped1 r + skipped2 r) <$> rs).
Proof.
  intros (rs & ts & _ & Hrun & _ & _ & -> & ->)%sample_Ok. by exists rs.
Qed.

(** C3.  A call of [update_params] that returns has been given a tensor
    loss and returns a new dictionary object (a reference that did not exist
    before) with the key set of the input, whose value at each key is the
    input value minus [step_size] times the gradient of the loss with respect
    to that value, taken with [create_graph = not first_order]; the input
    dictionary, like every dictionary that existed, is as it was. *)
Theorem update_params_returns_new_mapping self loss r step_size fo w r' w' :
  update_params self loss r step_size fo w = Ok (r', w') →
  ∃ nwc o updated,
    loss = PyTensor o ∧
    w_heap w !! r = Some nwc ∧
    r' ≠ r ∧ w_heap w !! r' = None ∧ w_heap w' !! r' = Some updated ∧
    dom updated = dom nwc ∧
    (∀ key t, nwc !! key = Some t →
       ∃ g, autograd_partial (negb fo) o t
              (net_zero_grad (Some nwc) (w_ext w)) = Some g ∧
            updated !! key = Some (tsub t (smul step_size g))) ∧
    (∀ i d, w_heap w !! i = Some d → w_heap w' !! i = Some d).
Proof.
  intros (nwc & o & updated & Hr & -> & -> & [ngw Hh] & _ & _ & Hval & Hall)
    %update_params_inv.
  exists nwc, o, updated. split; [done|]. split; [done|].
  assert (Hlt : r < length (w_heap w)) by (by eapply lookup_lt_Some).
  split; [lia|]. split; [by apply lookup_ge_None|]. split.
  { rewrite Hh. apply heap_lookup_new. }
  split.
  { apply set_eq. intros key. rewrite !elem_of_dom, Hval.
    destruct (nwc !! key) as [t|] eqn:Ht; simpl.
    - destruct (Hall key t Ht) as [g ->]. simpl. split; by eauto.
    - split; by intros [? ?]. }
  split.
  { intros key t Ht. destruct (Hall key t Ht) as [g Hg]. exists g.
    split; [done|]. by rewrite Hval, Ht; simpl; rewrite Hg. }
  intros i d Hi. rewrite Hh. apply lookup_app_l_Some. done.
Qed.

(** C7, as the code has it.  If the loss is a tensor that does not depend on
    one of the weights of the mapping, its gradient is not taken as zero:
    [torch.autograd.grad] is called with [allow_unused] at its default, and
    [update_params] raises the RuntimeError and returns no mapping. *)
Theorem update_params_unused_weight_raises self o r step_size fo w nwc key t :
  w_heap w !! r = Some nwc →
  nwc !! key = Some t →
  autograd_partial (negb fo) o t (net_zero_grad (Some nwc) (w_ext w)) = None →
  update_params self (PyTensor o) r step_size fo w = Raise RuntimeError.
Proof.
  intros Hr Ht Hnone. unfold update_params.
  erewrite bind_step by (by apply dict_deref_Ok).
  erewrite bind_step by (by apply ext_do_Ok).
  apply bind_Raise. unfold autograd_grad.
  apply elem_of_map_to_list in Ht.
  apply (list_elem_of_fmap_2 snd) in Ht. simpl in Ht.
  destruct ((map_to_list nwc).*2) as [|i0 l0] eqn:Hin;
    [by apply elem_of_nil in Ht|].
  cbv beta iota. destruct (mapM _ _) as [gs|] eqn:Hm; [|done].
  exfalso. apply mapM_Some in Hm.
  apply list_elem_of_lookup in Ht as [i Hi].
  destruct (Forall2_lookup_l _ _ _ _ _ Hm Hi) as (g & _ & Hg).
  cbn [w_ext set_ext] in Hg. congruence.
Qed.

(** C4.  In a call of [inner_loss] that returns, each example keeps the
    decodes that do not repeat the token sequence of an earlier one: the kept
    sequences of an example are pairwise different, the logits, actions and
    advantages that reach the loss are those of the kept decodes alone, and
    [skipped_samples] is exactly the number of repeats, so that kept plus
    skipped is [total_samples]. *)
Theorem duplicate_samples_are_skipped self task ws w loss tot sk w' :
  inner_loss self task ws w = Ok ((loss, tot, sk), w') →
  ∃ input_batch output_batch context enc beg w0,
    inner_loss_head self task ws w
      = Ok ((input_batch, output_batch, context, enc, beg), w0) ∧
    let obs := examples_trace self output_batch context enc beg
                 (zip (seq 0 (length input_batch)) input_batch) acc_init w0 in
    let kept := kept_samples obs in
    Forall (λ o, NoDup (kept_draws [] o.2).*1.*2) obs ∧
    tot = sum_list (length ∘ snd <$> obs) ∧
    sk = sum_list (duplicate_draws [] ∘ snd <$> obs) ∧
    length kept + sk = tot ∧
    (kept ≠ [] →
     loss = PyTensor (policy_loss self kept.*2.*1.*1 (concat kept.*2.*1.*2)
                        (kept ≫= sample_advantages))).
Proof.
  intros (ib & ob & ctx & enc & beg & w0 & Hhead & _ & _ & -> & -> & Hloss & _)
    %inner_loss_inv.
  exists ib, ob, ctx, enc, beg, w0. split; [done|]. cbn zeta.
  split; [apply kept_samples_NoDup|]. split; [done|]. split; [done|].
  split; [apply kept_samples_count|].
  intros Hne. destruct (kept_samples _) as [|k kept]; [done|]. by destruct Hloss.
Qed.

(** C8.  In a call of [inner_loss] that returns with a sample kept, every
    token of a kept sample has the advantage reward(sample) minus
    reward(argmax decode of its example), and the loss is the negated mean,
    over all the tokens collected, of the advantage times the log-softmax of
    the logits at the index of the token.  The two rewards are the draws of
    the source: [k.2.2] is what [random.random()] returns right after the
    stochastic decode ([draw_at]), and the baseline [k.1] what it returns
    right after the argmax decode of the example ([baseline_at]). *)
Theorem advantage_weighted_loss self task ws w loss tot sk w' :
  inner_loss self task ws w = Ok ((loss, tot, sk), w') →
  ∃ input_batch output_batch context enc beg w0,
    inner_loss_head self task ws w
      = Ok ((input_batch, output_batch, context, enc, beg), w0) ∧
    let obs := examples_trace self output_batch context enc beg
                 (zip (seq 0 (length input_batch)) input_batch) acc_init w0 in
    let kept := kept_samples obs in
    let net_policies := kept.*2.*1.*1 in
    let net_actions := concat kept.*2.*1.*2 in
    let net_advantages :=
      kept ≫= λ k, replicate (length k.2.1.2) (fsub k.2.2 k.1) in
    length net_advantages = length net_actions ∧
    length kept + sk = tot ∧
    (kept ≠ [] →
     loss = PyTensor
       (cuda (tneg (tmean
          (cuda (tmul
             (cuda (Tensor_to (device self) (FloatTensor net_advantages)))
             (index_rows (cuda (log_softmax (cuda (tcat net_policies)) 1))
                (length net_actions)
                (cuda (Tensor_to (device self) (LongTensor net_actions)))))))))).
Proof.
  intros (ib & ob & ctx & enc & beg & w0 & Hhead & _ & _ & -> & -> & Hloss & _)
    %inner_loss_inv.
  exists ib, ob, ctx, enc, beg, w0. split; [done|]. cbn zeta. split.
  - generalize (kept_samples (examples_trace self ob ctx enc beg
                  (zip (seq 0 (length ib)) ib) acc_init w0)).
    intros kept. induction kept as [|k kept IH]; [done|]. csimpl.
    rewrite !length_app, length_replicate. by rewrite IH.
  - split; [apply kept_samples_count|].
    intros Hne. destruct (kept_samples _) as [|k kept]; [done|].
    by destruct Hloss.
Qed.

(** C5, where the code stops short of it.  When no decode is kept
    ([total_samples = skipped_samples]), [inner_loss] logs the notice and
    returns the Python float 0.0 without raising; but that float is not a
    loss tensor (the source has a TODO for it): [update_params] on it raises
    a TypeError instead of leaving the weights alone, and so does
    [torch.stack] on a list of meta-losses that ends with it. *)
Theorem zero_loss_is_a_float_not_a_tensor self task ws w loss tot sk w' :
  inner_loss self task ws w = Ok ((loss, tot, sk), w') →
  tot = sk →
  loss = PyFloat f_zero ∧
  w_log w' = w_log w ++ ["The net_policies is empty!"] ∧
  (∀ r step_size fo, is_Some (w_heap w' !! r) →
     update_params self loss r step_size fo w' = Raise TypeError) ∧
  (∀ task_losses w1, torch_stack (task_losses ++ [loss]) w1 = Raise TypeError).
Proof.
  intros (ib & ob & ctx & enc & beg & w0 & Hhead & _ & _ & Ht & Hs & Hloss & _)
    %inner_loss_inv Heq.
  cbn zeta in *.
  pose proof (kept_samples_count (examples_trace self ob ctx enc beg
                (zip (seq 0 (length ib)) ib) acc_init w0)) as Hc.
  rewrite <- Ht, <- Hs in Hc.
  destruct (kept_samples _) as [|k kept]; [|simpl in Hc; lia].
  destruct Hloss as [-> Hlog]. split; [done|]. split; [done|]. split.
  - intros r lr fo Hr. by apply update_params_float.
  - intros tl w1. apply torch_stack_float.
Qed.


End MetaLearnerClaims.

Section TrustRegionClaims.
Context `{T : Trpo}.

(** C2.  In the line search of [step], a turn is accepted only if the new
    surrogate loss is strictly below the old loss and the new KL divergence
    strictly below max_kl: [step] leaves the policy at the parameters of the
    first turn that passes, which no earlier turn did, or, when none of the
    ls_max_steps turns passes, at [old_params].  If the first turn passes,
    the parameters are [old_params - 1.0 * step]; if none passes, they are
    [old_params].  (The source tests [loss - old_loss < 0.0]; the hypothesis
    says that this is [loss < old_loss], as it is for floats that are not
    NaN.) *)
Theorem line_search_accepts_strict_improvement
    (episodes : Episodes) (max_kl : R) (cg_iters : Z) (cg_damping : R)
    (ls_max_steps : Z) (ls_backtrack_ratio : R) (old_params : Vec) :
  (∀ a b, rltb (rsub a b) r_zero = rltb a b) →
  let old_loss := (surrogate_loss episodes None old_params).1.1 in
  let old_pis := (surrogate_loss episodes None old_params).2 in
  let stp := step_vector episodes max_kl cg_iters cg_damping old_params in
  let n := Z.to_nat ls_max_steps in
  let cand := ls_candidate old_params stp ls_backtrack_ratio in
  let better := ls_better episodes old_pis old_loss max_kl in
  let params := step episodes max_kl cg_iters cg_damping ls_max_steps
                  ls_backtrack_ratio old_params in
  ((∃ k, k < n ∧ params = cand k ∧ better (cand k) = true ∧
         ∀ j, j < k → better (cand j) = false) ∨
   (params = old_params ∧ ∀ k, k < n → better (cand k) = false)) ∧
  (0 < n → better (cand 0) = true →
   params = vsub old_params (vscale r_one stp)) ∧
  ((∀ k, k < n → better (cand k) = false) → params = old_params).
Proof.
  intros Hlt old_loss old_pis stp n cand better params.
  assert (Htest : ∀ p, ls_test episodes old_pis old_loss max_kl p = better p).
  { intros p. unfold ls_test, better, ls_better. by rewrite Hlt. }
  assert (Hmain :
    (∃ k, k < n ∧ params = cand k ∧ better (cand k) = true ∧
          ∀ j, j < k → better (cand j) = false) ∨
    (params = old_params ∧ ∀ k, k < n → better (cand k) = false)).
  { subst params. unfold step.
    destruct (surrogate_loss episodes None old_params) as [[ol okl] op] eqn:Hs.
    simpl in old_loss, old_pis. subst old_loss old_pis. fold stp. fold n.
    pose proof (line_search_from episodes op ol old_params stp max_kl
                  ls_backtrack_ratio n r_one) as Hls.
    cbn zeta in Hls.
    destruct (line_search _ _ _ _ _ _ _ n r_one) as [p|].
    - left. destruct Hls as (k & Hk & -> & Hk1 & Hk2). exists k.
      rewrite Htest in Hk1. repeat split; try done.
      intros j Hj. rewrite <- Htest. by apply Hk2.
    - right. split; [done|]. intros k Hk. rewrite <- Htest. by apply Hls. }
  split; [exact Hmain|]. split.
  - intros Hn H0. destruct Hmain as [(k & Hk & -> & _ & Hbefore)|[_ Hnone]].
    + destruct k as [|k]; [done|]. rewrite Hbefore in H0 by lia. done.
    + rewrite Hnone in H0 by lia. done.
  - intros Hnone. destruct Hmain as [(k & Hk & _ & Hk1 & _)|[-> _]]; [|done].
    rewrite Hnone in Hk1 by lia. done.
Qed.

(** C9, as the code has it.  The step [step] applies is the
    conjugate-gradient direction [x] divided by
    [sqrt((0.5 * x.Hx) / max_kl)], not multiplied by it: the line search
    tries [old_params - s * (x / sqrt((0.5 * x.Hx) / max_kl))] for the step
    sizes [s] = 1.0, ratio, ratio^2, ..., and [step] leaves the policy at the
    first of these candidates that passes the test of the source (the loss
    minus the old loss below 0.0 and the KL divergence below max_kl), or at
    [old_params] when none of the ls_max_steps candidates passes.  The bound
    on the KL divergence of the result is that of the test. *)
Theorem step_direction_divided_by_scale
    (episodes : Episodes) (max_kl : R) (cg_iters : Z) (cg_damping : R)
    (ls_max_steps : Z) (ls_backtrack_ratio : R) (old_params : Vec) :
  let x := cg_direction episodes cg_iters cg_damping old_params in
  let scale := trust_region_scale episodes max_kl cg_iters cg_damping
                 old_params in
  let old_loss := (surrogate_loss episodes None old_params).1.1 in
  let old_pis := (surrogate_loss episodes None old_params).2 in
  let cand k := vsub old_params
                  (vscale (ls_step_size ls_backtrack_ratio k)
                     (vdiv x scale)) in
  let test := ls_test episodes old_pis old_loss max_kl in
  let params := step episodes max_kl cg_iters cg_damping ls_max_steps
                  ls_backtrack_ratio old_params in
  (∃ k, k < Z.to_nat ls_max_steps ∧ params = cand k ∧
        test (cand k) = true ∧
        rltb (surrogate_loss episodes (Some old_pis) params).1.2 max_kl
          = true ∧
        ∀ j, j < k → test (cand j) = false) ∨
  (params = old_params ∧
   ∀ k, k < Z.to_nat ls_max_steps → test (cand k) = false).
Proof.
  intros x scale old_loss old_pis cand test params.
  subst params old_loss old_pis test. unfold step.
  destruct (surrogate_loss episodes None old_params) as [[ol okl] op].
  cbn [fst snd].
  pose proof (line_search_from episodes op ol old_params
                (step_vector episodes max_kl cg_iters cg_damping old_params)
                max_kl ls_backtrack_ratio (Z.to_nat ls_max_steps) r_one) as Hls.
  cbn zeta in Hls.
  destruct (line_search _ _ _ _ _ _ _ _ r_one) as [p|].
  - left. destruct Hls as (k & Hk & -> & Hk1 & Hk2). exists k.
    split; [done|]. split; [done|]. split; [exact Hk1|]. split; [|exact Hk2].
    unfold ls_test in Hk1. by apply andb_prop in Hk1 as [_ Hkl].
  - right. split; [done|]. exact Hls.
Qed.

End TrustRegionClaims.

Section QuadWitnesses.
Import QArith_base Quad.

Lemma quad_sub_lt (a b : Q) : qltb (Qminus a b) (Qmake 0 1) = qltb a b.
Proof.
  destruct a as [an ad], b as [bn bd]. unfold qltb, Qminus, Qplus, Qopp. simpl.
  apply eq_iff_eq_true. rewrite !Z.ltb_lt. lia.
Qed.

(** A policy at 3 with target 0, max_kl 1, damping 1: the first turn passes
    (loss 4 < 9, KL 1/2 < 1).  With the target at the parameters themselves
    no turn improves the loss and the parameters are restored. *)
Lemma line_search_accepts_strict_improvement_witness :
  (∀ a b : Q, qltb (Qminus a b) (Qmake 0 1) = qltb a b) ∧
  step (T:=trpo) [Qmake 0 1] (Qmake 1 1) 10 (Qmake 1 1) 10 (Qmake 1 2) [Qmake 3 1]
    = vsub (Trpo:=trpo) [Qmake 3 1]
        (vscale r_one
           (step_vector (T:=trpo) [Qmake 0 1] (Qmake 1 1) 10 (Qmake 1 1) [Qmake 3 1])) ∧
  step (T:=trpo) [Qmake 3 1] (Qmake 1 1) 10 (Qmake 1 1) 10 (Qmake 1 2) [Qmake 3 1]
    = [Qmake 3 1].
Proof.
  split; [exact quad_sub_lt|]. split.
  - apply (line_search_accepts_strict_improvement (T:=trpo)
             [Qmake 0 1] (Qmake 1 1) 10 (Qmake 1 1) 10 (Qmake 1 2) [Qmake 3 1]
             quad_sub_lt); [vm_compute; lia | vm_compute; reflexivity].
  - apply (line_search_accepts_strict_improvement (T:=trpo)
             [Qmake 3 1] (Qmake 1 1) 10 (Qmake 1 1) 10 (Qmake 1 2) [Qmake 3 1]
             quad_sub_lt).
    intros k Hk. change (Z.to_nat 10%Z) with 10%nat in Hk.
    do 10 (destruct k as [|k]; [vm_compute; reflexivity|]). lia.
Defined.

(** C9, as the spec has it, fails: at the policy above the conjugate-gradient
    direction is 3 and the scale is 3; the step applied is 3/3 = 1, not
    3*3 = 9. *)
Lemma step_not_multiplied_by_scale :
  let x := cg_direction (T:=trpo) [Qmake 0 1] 10 (Qmake 1 1) [Qmake 3 1] in
  let scale := trust_region_scale (T:=trpo) [Qmake 0 1] (Qmake 1 1) 10 (Qmake 1 1)
                 [Qmake 3 1] in
  let stp := step_vector (T:=trpo) [Qmake 0 1] (Qmake 1 1) 10 (Qmake 1 1) [Qmake 3 1] in
  Forall2 Qeq x [Qmake 3 1] ∧ Qeq scale (Qmake 3 1) ∧
  Forall2 Qeq stp [Qmake 1 1] ∧
  Forall2 Qeq (vscale scale x) [Qmake 9 1] ∧
  ¬ Forall2 Qeq stp (vscale scale x).
Proof.
  vm_compute. repeat split.
  - repeat constructor.
  - repeat constructor.
  - repeat constructor.
  - intros H. inversion H as [|? ? ? ? Hq _]; subst. vm_compute in Hq. lia.
Defined.

End QuadWitnesses.

Section SymWitnesses.
Import Sym.

Lemma sample_returns_true r total skipped :
  sample_returns r total skipped = true →
  ∃ m w', r = Ok ((m, total, skipped), w') ∧ opt_steps (w_ext w') = 0.
Proof.
  destruct r as [[[[m t] s] w]|e]; simpl; [|done].
  intros [[->%Nat.eqb_eq ->%Nat.eqb_eq]%andb_prop Hs%Nat.eqb_eq]%andb_prop.
  by exists m, w.
Qed.

Lemma inner_loss_returns_true r total skipped n :
  inner_loss_returns r total skipped n = true →
  ∃ loss w', r = Ok ((loss, total, skipped), w') ∧ length (w_heap w') = n.
Proof.
  destruct r as [[[[l t] s] w]|e]; simpl; [|done].
  intros [[->%Nat.eqb_eq ->%Nat.eqb_eq]%andb_prop Hs%Nat.eqb_eq]%andb_prop.
  by exists l, w.
Qed.

Lemma update_params_returns_true r r' :
  update_params_returns r r' = true → ∃ w', r = Ok (r', w').
Proof.
  destruct r as [[x w]|e]; simpl; [|done]. intros ->%Nat.eqb_eq. by exists w.
Qed.

(** Two tasks, three decodes in each evaluation: [sample] returns 12 decodes
    counted and 4 skipped, and one optimizer step follows. *)
Lemma sample_two_updates_then_meta_loss_witness :
  ∃ m w' w'',
    sample (learner 3) [[5%Z]; [6%Z]] false world0 = Ok ((m, 12, 4), w') ∧
    meta_update (learner 3) (PyTensor m) w' = Ok (tt, w'') ∧
    opt_steps (w_ext w'') = 1.
Proof.
  destruct (sample_returns_true
              (sample (Sub:=substrate) (learner 3) [[5%Z]; [6%Z]] false world0) 12 4)
    as (m & w' & Hrun & Hsteps); [vm_compute; reflexivity|].
  destruct (sample_two_updates_then_meta_loss (Sub:=substrate) _ _ _ _ _ _ _ _ Hrun)
    as (rs & ts & _ & _ & _ & _ & lr & eps & _ & Hupd).
  eexists m, w', _. split; [exact Hrun|]. split; [exact Hupd|].
  simpl. by rewrite Hsteps.
Defined.

(** The same run: the counts are those of two evaluations per task, while
    each task made a third. *)
Lemma sample_counts_leave_out_meta_evaluation_witness :
  ∃ m w' rs,
    sample (learner 3) [[5%Z]; [6%Z]] false world0 = Ok ((m, 12, 4), w') ∧
    12 = sum_list ((λ r, total1 r + total2 r) <$> rs) ∧
    4 = sum_list ((λ r, skipped1 r + skipped2 r) <$> rs).
Proof.
  destruct (sample_returns_true
              (sample (Sub:=substrate) (learner 3) [[5%Z]; [6%Z]] false world0) 12 4)
    as (m & w' & Hrun & _); [vm_compute; reflexivity|].
  destruct (sample_counts_leave_out_meta_evaluation (Sub:=substrate) _ _ _ _ _ _ _ _ Hrun)
    as (rs & _ & Ht & Hs).
  exists m, w', rs. split; [exact Hrun|]. split; [exact Ht | exact Hs].
Defined.

(** A loss that uses both weights: the update returns a second dictionary
    and leaves the first as it was. *)
Lemma update_params_returns_new_mapping_witness :
  ∃ w',
    update_params (learner 3) (@PyTensor substrate (Bin "f" w0 b0)) 0
      (QArith_base.Qmake 1 10) false world1 = Ok (1, w') ∧
    w_heap w' !! 0 = Some {[ "w" := w0; "b" := b0 ]}.
Proof.
  destruct (update_params_returns_true
              (update_params (Sub:=substrate) (learner 3) (@PyTensor substrate (Bin "f" w0 b0)) 0
                 (QArith_base.Qmake 1 10) false world1) 1)
    as (w' & Hrun); [vm_compute; reflexivity|].
  destruct (update_params_returns_new_mapping (Sub:=substrate) _ _ _ _ _ _ _ _ Hrun)
    as (nwc & o & updated & _ & _ & _ & _ & _ & _ & _ & Hkeep).
  exists w'. split; [exact Hrun|]. by apply Hkeep.
Defined.

(** A loss that uses [w] and not [b]. *)
Lemma update_params_unused_weight_raises_witness :
  update_params (learner 3) (@PyTensor substrate (Un "f" w0)) 0
    (QArith_base.Qmake 1 10) false world1 = Raise RuntimeError.
Proof.
  apply (update_params_unused_weight_raises (learner 3) (Un "f" w0) 0
           (QArith_base.Qmake 1 10) false world1
           {[ "w" := w0; "b" := b0 ]} "b" b0); vm_compute; reflexivity.
Defined.

(** C7, as the spec has it, fails: the loss does not depend on [b], and
    [update_params] returns no mapping at all, let alone one that holds [b]
    unchanged. *)
Lemma unused_weight_not_treated_as_zero :
  autograd_partial true (Un "f" w0) b0
    (net_zero_grad (Some {[ "w" := w0; "b" := b0 ]}) ext0) = None ∧
  ¬ ∃ r' w' d,
      update_params (learner 3) (@PyTensor substrate (Un "f" w0)) 0
        (QArith_base.Qmake 1 10) false world1 = Ok (r', w') ∧
      w_heap w' !! r' = Some d ∧ d !! "b" = Some b0.
Proof.
  split; [vm_compute; reflexivity|]. intros (r' & w' & d & Hrun & _).
  vm_compute in Hrun. discriminate Hrun.
Defined.

(** One task, three decodes, the second a repeat of the first: two samples
    reach the loss. *)
Lemma duplicate_samples_are_skipped_witness :
  ∃ loss w' p1 p2 actions advantages,
    inner_loss (learner 3) [5%Z] None world0 = Ok ((loss, 3, 1), w') ∧
    loss = PyTensor (policy_loss (learner 3) [p1; p2] actions advantages).
Proof.
  destruct (inner_loss_returns_true
              (inner_loss (Sub:=substrate) (learner 3) [5%Z] None world0) 3 1 0)
    as (loss & w' & Hrun & _); [vm_compute; reflexivity|].
  destruct (duplicate_samples_are_skipped (Sub:=substrate) _ _ _ _ _ _ _ _ Hrun)
    as (ib & ob & ctx & enc & beg & w1 & _ & _ & _ & _ & Hlen & Hloss).
  cbn zeta in *. destruct (kept_samples _) as [|k1 [|k2 [|k3 kept]]];
    simpl in Hlen; try lia.
  eexists loss, w', _, _, _, _. split; [exact Hrun|]. by apply Hloss.
Defined.

Lemma advantage_weighted_loss_witness :
  ∃ loss w' t,
    inner_loss (learner 3) [5%Z] None world0 = Ok ((loss, 3, 1), w') ∧
    loss = PyTensor (cuda (tneg (tmean t))).
Proof.
  destruct (inner_loss_returns_true
              (inner_loss (Sub:=substrate) (learner 3) [5%Z] None world0) 3 1 0)
    as (loss & w' & Hrun & _); [vm_compute; reflexivity|].
  destruct (advantage_weighted_loss (Sub:=substrate) _ _ _ _ _ _ _ _ Hrun)
    as (ib & ob & ctx & enc & beg & w1 & _ & _ & Hlen & Hloss).
  cbn zeta in *. destruct (kept_samples _) as [|k kept];
    [simpl in Hlen; lia|].
  eexists loss, w', _. split; [exact Hrun|]. by apply Hloss.
Defined.

(** With no decode at all ([samples = 0]) the loss is the float 0.0, and
    the inner update that [sample] makes next raises. *)
Lemma zero_loss_is_a_float_not_a_tensor_witness :
  ∃ loss w',
    inner_loss (learner 0) [5%Z] (Some 0) world1 = Ok ((loss, 0, 0), w') ∧
    loss = PyFloat f_zero ∧
    update_params (learner 0) loss 0 (fast_lr (learner 0)) false w'
      = Raise TypeError.
Proof.
  destruct (inner_loss_returns_true
              (inner_loss (Sub:=substrate) (learner 0) [5%Z] (Some 0) world1) 0 0 1)
    as (loss & w' & Hrun & Hheap); [vm_compute; reflexivity|].
  destruct (zero_loss_is_a_float_not_a_tensor (Sub:=substrate) _ _ _ _ _ _ _ _ Hrun eq_refl)
    as (Hloss & _ & Hupd & _).
  exists loss, w'. split; [exact Hrun|]. split; [exact Hloss|].
  apply Hupd. apply lookup_lt_is_Some. rewrite Hheap. lia.
Defined.

(** The same learner on a batch of one task: [sample] does not return. *)
Example sample_without_decodes_raises :
  sample (learner 0) [[5%Z]] false world0 = Raise TypeError.
Proof. vm_compute. reflexivity. Qed.


End SymWitnesses.

(** * Further properties of the meta-learner *)

Section MetaLearnerMore.
Context `{Sub : Substrate}.

(** ** get_inner_loop_parameter_dict *)

Lemma inner_loop_fold_spec dev (params : list (string * Tensor)) :
  ∀ d0 : gmap string Tensor,
  let d := foldl (λ d '(name, param),
                    if requires_grad param
                    then <[name := Tensor_to dev param]> d else d) d0 params in
  dom d = dom d0 ∪
          list_to_set (filter (λ np, requires_grad np.2 = true) params).*1 ∧
  ∀ name t, d !! name = Some t →
    d0 !! name = Some t ∨
    ∃ p, (name, p) ∈ params ∧ requires_grad p = true ∧ t = Tensor_to dev p.
Proof.
  induction params as [|[n q] params IH]; intros d0; cbn [foldl].
  - split; [simpl; by rewrite union_empty_r_L|]. intros name t Ht. by left.
  - destruct (IH (if requires_grad q then <[n := Tensor_to dev q]> d0 else d0))
      as [Hdom Hval].
    cbn zeta in *. split.
    + rewrite Hdom. destruct (requires_grad q) eqn:Hq.
      * rewrite filter_cons_True by done. rewrite dom_insert_L. csimpl.
        by rewrite (comm_L (∪) {[n]} (dom d0)), (assoc_L (∪)).
      * rewrite filter_cons_False by (simpl; congruence). done.
    + intros name t Ht. destruct (Hval name t Ht) as [H0|(p & Hin & Hp & ->)].
      * destruct (requires_grad q) eqn:Hq; [|by left].
        destruct (decide (n = name)) as [->|Hne].
        -- rewrite lookup_insert_eq in H0. injection H0 as <-.
           right. exists q. split; [left|done].
        -- rewrite lookup_insert_ne in H0 by done. by left.
      * right. exists p. split; [by right|done].
Qed.

(** X1.  [get_inner_loop_parameter_dict] never raises.  It allocates one
    dictionary, at the end of the heap, and touches nothing else; the keys of
    that dictionary are exactly the names of the parameters that require
    grad, and each value is [param.to(device=self.device)] of a parameter of
    that name. *)
Theorem get_inner_loop_parameter_dict_keys self
    (params : list (string * Tensor)) w :
  ∃ d : gmap string Tensor,
    get_inner_loop_parameter_dict self params w
      = Ok (length (w_heap w), set_heap (w_heap w ++ [d]) w) ∧
    dom d = list_to_set (filter (λ np, requires_grad np.2 = true) params).*1 ∧
    ∀ name t, d !! name = Some t →
      ∃ p, (name, p) ∈ params ∧ requires_grad p = true ∧
           t = Tensor_to (device self) p.
Proof.
  exists (inner_loop_dict (device self) params).
  split; [apply get_inner_loop_parameter_dict_eq|].
  destruct (inner_loop_fold_spec (device self) params ∅) as [Hdom Hval].
  cbn zeta in *. unfold inner_loop_dict. split.
  - by rewrite Hdom, dom_empty_L, union_empty_l_L.
  - intros name t Ht. destruct (Hval name t Ht) as [H0|H1]; [|done].
    by rewrite lookup_empty in H0.
Qed.

(** X2.  When the names are distinct, the entry of a parameter that requires
    grad and lives on another device than [self.device] is the copy [.to]
    makes on [self.device], and a parameter that does not require grad has no
    entry. *)
Theorem inner_loop_dict_copies_across_devices self
    (params : list (string * Tensor)) w name p :
  NoDup params.*1 →
  (name, p) ∈ params →
  ∃ r w' d,
    get_inner_loop_parameter_dict self params w = Ok (r, w') ∧
    w_heap w' !! r = Some d ∧
    (requires_grad p = true → tensor_device p ≠ device self →
     d !! name = Some (copy_to (device self) p)) ∧
    (requires_grad p = false → d !! name = None).
Proof.
  intros Hnd Hin. eexists _, _, _.
  split; [apply get_inner_loop_parameter_dict_eq|]. split.
  { simpl. rewrite lookup_app_r, Nat.sub_diag by done. done. }
  rewrite (inner_loop_dict_lookup _ _ name p Hnd Hin). split.
  - intros -> Hdev. unfold Tensor_to. by rewrite decide_False.
  - by intros ->.
Qed.

(** ** inner_loss: how many decodes, and when the loss is the float *)

Lemma sum_list_lengths (obs : list (F * list (Tensor * list Z * F))) n :
  Forall (λ o, length o.2 = n) obs →
  sum_list (length ∘ snd <$> obs) = length obs * n.
Proof.
  induction 1 as [|o obs Ho _ IH]; [done|]. csimpl. rewrite IH, Ho. lia.
Qed.

Lemma duplicate_draws_first_kept (tr : list (Tensor * list Z * F)) :
  tr ≠ [] → duplicate_draws [] tr < length tr.
Proof.
  intros Hne. pose proof (kept_plus_duplicates tr []) as Hc.
  destruct tr as [|d tr]; [done|]. simpl in *. lia.
Qed.

Lemma sum_list_duplicates (obs : list (F * list (Tensor * list Z * F))) n :
  Forall (λ o, length o.2 = n) obs →
  sum_list (duplicate_draws [] ∘ snd <$> obs) ≤ length obs * (n - 1).
Proof.
  induction 1 as [|[b tr] obs Ho _ IH]; [done|]. csimpl. simpl in Ho.
  destruct tr as [|d tr].
  - simpl in *. subst n. simpl in *. lia.
  - pose proof (duplicate_draws_first_kept (d :: tr)) as Hlt.
    specialize (Hlt ltac:(done)). rewrite Ho in Hlt. lia.
Qed.

(** X3.  An evaluation of [inner_loss] that returns has drawn exactly
    [self.samples] stochastic decodes for each example of the batch (none if
    [samples] is negative); the first decode of an example is never skipped,
    so at most [samples - 1] per example are; and no dictionary of the heap
    has changed. *)
Theorem inner_loss_counts self task ws w loss tot sk w' :
  inner_loss self task ws w = Ok ((loss, tot, sk), w') →
  ∃ input_batch output_batch context enc beg w0,
    inner_loss_head self task ws w
      = Ok ((input_batch, output_batch, context, enc, beg), w0) ∧
    tot = length input_batch * Z.to_nat (samples self) ∧
    sk ≤ length input_batch * (Z.to_nat (samples self) - 1) ∧
    w_heap w' = w_heap w.
Proof.
  intros (ib & ob & ctx & enc & beg & w0 & Hhead & Hlen & Hall & -> & -> & _ & Hh)
    %inner_loss_inv.
  exists ib, ob, ctx, enc, beg, w0. cbn zeta in *. split; [done|].
  split; [by rewrite (sum_list_lengths _ _ Hall), Hlen|].
  split; [|done].
  etrans; [apply (sum_list_duplicates _ _ Hall)|]. by rewrite Hlen.
Qed.

(** X4.  [inner_loss] takes the zero-loss path exactly when it drew no decode
    at all: then it returns the float 0.0 and logs the notice; as soon as one
    decode was drawn, one is kept, fewer are skipped than drawn, the loss is
    a tensor and the log is as it was. *)
Theorem inner_loss_float_iff_no_decode self task ws w loss tot sk w' :
  inner_loss self task ws w = Ok ((loss, tot, sk), w') →
  (tot = 0 ∧ sk = 0 ∧ loss = PyFloat f_zero ∧
   w_log w' = w_log w ++ ["The net_policies is empty!"]) ∨
  (0 < tot ∧ sk < tot ∧ (∃ t, loss = PyTensor t) ∧ w_log w' = w_log w).
Proof.
  intros (ib & ob & ctx & enc & beg & w0 & Hhead & _ & _ & Ht & Hs & Hloss & _)
    %inner_loss_inv.
  cbn zeta in *.
  pose proof (kept_samples_count (examples_trace self ob ctx enc beg
                (zip (seq 0 (length ib)) ib) acc_init w0)) as Hc.
  rewrite <- Ht, <- Hs in Hc.
  set (obs := examples_trace _ _ _ _ _ _ _ _) in *.
  destruct (kept_samples obs) as [|k kept] eqn:Hk.
  - destruct Hloss as [-> Hlog]. simpl in Hc.
    destruct (decide (tot = 0)) as [->|Hne]; [left; split; [done|]; split; [lia|done]|].
    exfalso. clear Hlog Hhead.
    assert (Hex : ∃ o, o ∈ obs ∧ o.2 ≠ []).
    { clear Hk Hc Hs. subst tot. induction obs as [|o obs IH]; [done|].
      csimpl in Hne. destruct (o.2) as [|d tr] eqn:Ho.
      - destruct IH as (o' & Hin & Ho'); [by simpl in Hne|].
        exists o'. split; [by right|done].
      - exists o. split; [left|]. by rewrite Ho. }
    destruct Hex as ([b tr] & Hin & Htr). simpl in Htr.
    apply list_elem_of_split in Hin as (l1 & l2 & Hobs).
    rewrite Hobs in Hk. unfold kept_samples in Hk.
    rewrite bind_app in Hk. apply app_eq_nil in Hk as [_ Hk].
    csimpl in Hk. apply app_eq_nil in Hk as [Hk _].
    destruct tr as [|d tr]; [done|]. simpl in Hk. done.
  - destruct Hloss as [-> Hlog]. right. simpl in Hc.
    split; [lia|]. split; [lia|]. split; [by eexists|done].
Qed.

(** ** sample: edge cases *)

(** X5.  On an empty batch [sample] raises: [torch.stack] is handed an empty
    list of meta-losses. *)
Theorem sample_empty_batch_raises self fo w :
  sample self [] fo w = Raise RuntimeError.
Proof.
  unfold sample. erewrite bind_step by (by apply ext_do_Ok).
  cbn [for_each]. erewrite bind_step by (by apply mret_Ok).
  by apply bind_Raise.
Qed.

Lemma kept_samples_no_decode (obs : list (F * list (Tensor * list Z * F))) :
  Forall (λ o, length o.2 = 0) obs → kept_samples obs = [].
Proof.
  unfold kept_samples. induction 1 as [|[b tr] obs Ho _ IH]; [done|].
  csimpl. rewrite IH. simpl in Ho. by destruct tr.
Qed.

(** X6.  With [self.samples] at zero or below, [sample] returns on no batch
    at all: the first inner loss is the float 0.0, which the inner update
    does not take. *)
Theorem sample_without_decodes_never_returns self tasks fo w r :
  (samples self ≤ 0)%Z →
  sample self tasks fo w ≠ Ok r.
Proof.
  intros Hs Hrun. destruct r as [[[m tot] sk] w'].
  apply sample_Ok in Hrun as (rs & ts & Hne & Hrun & _).
  destruct Hrun as [|task tasks w0 r w1 rs w' Htask _]; [done|].
  destruct Htask as (w2 & w3 & w4 & w5 & w6 & _ & Hin & Hupd & _).
  apply inner_loss_inv in Hin
    as (ib & ob & ctx & enc & beg & w7 & _ & _ & Hall & _ & _ & Hloss & _).
  cbn zeta in *. replace (Z.to_nat (samples self)) with 0 in Hall by lia.
  rewrite (kept_samples_no_decode _ Hall) in Hloss. destruct Hloss as [Hloss _].
  apply update_params_inv in Hupd as (? & o & ? & _ & Ho & _). congruence.
Qed.

End MetaLearnerMore.

(** * Properties of generateTest2.py *)

Section GenerateTest2Facts.
Import GenerateTest2.

Lemma setdefault_keys_NoDup (d : list (string * string)) key value :
  NoDup d.*1 → NoDup (setdefault d key value).*1.
Proof.
  intros Hnd. unfold setdefault, dict_contains. case_bool_decide as Hin; [done|].
  rewrite fmap_app. apply NoDup_app. split; [done|]. split.
  - intros x Hx [->|[]%not_elem_of_nil]%elem_of_cons. done.
  - apply NoDup_singleton.
Qed.

Lemma index_mask_fold_NoDup prefix (items : list string) : ∀ o d,
  NoDup d.*1 →
  NoDup (foldl (λ maskID '(i, item),
                  setdefault maskID item (prefix +:+ str (i + 1)))
               d (zip (seq o (length items)) items)).*1.
Proof.
  induction items as [|x l IH]; intros o d Hnd; [done|]. simpl.
  apply IH. by apply setdefault_keys_NoDup.
Qed.

Lemma index_mask_fold_spec prefix (items : list string) : ∀ o d e v,
  (e, v) ∈ (foldl (λ maskID '(i, item),
                     setdefault maskID item (prefix +:+ str (i + 1)))
                  d (zip (seq o (length items)) items)) ↔
  (e, v) ∈ d ∨
  ((e ∉ d.*1) ∧
   ∃ i, items !! i = Some e ∧ (∀ j, j < i → items !! j ≠ Some e) ∧
        v = prefix +:+ str (o + i + 1)).
Proof.
  induction items as [|x l IH]; intros o d e v.
  - simpl. split; [by left|]. intros [H|(_ & i & Hi & _)]; [done|].
    by rewrite lookup_nil in Hi.
  - cbn [length seq zip zip_with foldl]. rewrite IH.
    unfold setdefault, dict_contains. case_bool_decide as Hx.
    + split.
      * intros [H|(He & i & Hi & Hfirst & ->)]; [by left|]. right.
        split; [done|]. exists (S i). split; [done|]. split.
        -- intros [|j] Hj; simpl; [|apply Hfirst; lia]. intros [= ->]. done.
        -- f_equal. f_equal. lia.
      * intros [H|(He & i & Hi & Hfirst & ->)]; [by left|]. right.
        split; [done|]. destruct i as [|i].
        -- simpl in Hi. injection Hi as ->. done.
        -- exists i. split; [done|]. split.
           ++ intros j Hj. apply (Hfirst (S j)). lia.
           ++ f_equal. f_equal. lia.
    + rewrite fmap_app, elem_of_app, list_elem_of_singleton. simpl.
      rewrite not_elem_of_app, list_elem_of_singleton. split.
      * intros [[H|[= -> ->]]|((He & Hex) & i & Hi & Hfirst & ->)].
        -- by left.
        -- right. split; [done|]. exists 0. split; [done|]. split.
           ++ intros j Hj. lia.
           ++ f_equal. f_equal. lia.
        -- right. split; [done|]. exists (S i). split; [done|]. split.
           ++ intros [|j] Hj; simpl; [|apply Hfirst; lia]. by intros [= ->].
           ++ f_equal. f_equal. lia.
      * intros [H|(He & i & Hi & Hfirst & ->)]; [by left; left|].
        destruct i as [|i].
        -- simpl in Hi. injection Hi as ->. left. right.
           f_equal. f_equal. f_equal. lia.
        -- right. split.
           { split; [done|]. intros ->. by apply (Hfirst 0); [lia|]. }
           exists i. split; [done|]. split.
           ++ intros j Hj. apply (Hfirst (S j)). lia.
           ++ f_equal. f_equal. lia.
Qed.

Lemma index_maskID_elem_of prefix (items : list string) e v :
  (e, v) ∈ index_maskID prefix items →
  ∃ i, items !! i = Some e ∧ v = prefix +:+ str (i + 1).
Proof.
  unfold index_maskID. case_bool_decide as Hlen; [|by intros []%not_elem_of_nil].
  rewrite index_mask_fold_spec.
  intros [[]%not_elem_of_nil|(_ & i & Hi & _ & Hv)]. by exists i.
Qed.

(** X8.  In the entity and type mask dictionaries an item has the mask of
    its first occurrence: the pair (item, mask) is in the dictionary exactly
    when mask is the prefix followed by i+1 for the first index i at which
    the item stands in the list.  A repeated item takes no new mask, but the
    numbers of its later places are not given out again. *)
Theorem index_maskID_first_occurrence prefix (items : list string) e v :
  (e, v) ∈ index_maskID prefix items ↔
  ∃ i, items !! i = Some e ∧ (∀ j, j < i → items !! j ≠ Some e) ∧
       v = prefix +:+ str (i + 1).
Proof.
  unfold index_maskID. case_bool_decide as Hlen.
  - rewrite index_mask_fold_spec. simpl. split.
    + intros [[]%not_elem_of_nil|(_ & H)]. done.
    + intros H. right. split; [apply not_elem_of_nil|done].
  - split; [by intros []%not_elem_of_nil|].
    intros (i & Hi & _). destruct items; [by rewrite lookup_nil in Hi|].
    simpl in Hlen. lia.
Qed.

(** X9.  In the entity and type mask dictionaries no key stands twice and
    no mask stands twice: different items have different masks. *)
Theorem index_maskID_masks_distinct prefix (items : list string) :
  NoDup (index_maskID prefix items).*1 ∧ NoDup (index_maskID prefix items).*2.
Proof.
  assert (Hkeys : NoDup (index_maskID prefix items).*1).
  { unfold index_maskID. case_bool_decide; [|constructor].
    apply index_mask_fold_NoDup. constructor. }
  split; [done|].
  apply NoDup_fmap_2_strong; [|by apply NoDup_fmap_1 in Hkeys].
  intros [e1 v1] [e2 v2]
    (i1 & Hi1 & ->)%index_maskID_elem_of
    (i2 & Hi2 & Hv2)%index_maskID_elem_of Heq.
  simpl in Heq. subst v2. apply (inj (String.app prefix)) in Heq.
  apply (inj pretty) in Heq. assert (i1 = i2) as -> by lia. congruence.
Qed.

Lemma relation_fold_spec (relations : list string) : ∀ idx d,
  idx = length d → NoDup d.*1 →
  (∀ j k v, d !! j = Some (k, v) → v = "RELATION" +:+ str (j + 1)) →
  let st := foldl relation_step (idx, d) relations in
  st.1 = length st.2 ∧ NoDup st.2.*1 ∧
  (∀ j k v, st.2 !! j = Some (k, v) → v = "RELATION" +:+ str (j + 1)) ∧
  (∀ k, k ∈ st.2.*1 ↔
        k ∈ d.*1 ∨ ∃ r, r ∈ relations ∧ remove_dash r = k).
Proof.
  induction relations as [|x l IH]; intros idx d Hidx Hnd Hdense.
  - simpl. split_and!; try done. intros k. split; [by left|].
    intros [H|(r & []%not_elem_of_nil & _)]. done.
  - cbn [foldl].
    destruct (dict_contains d (remove_dash x)) eqn:Hc.
    + assert (relation_step (idx, d) x = (idx, d)) as ->
        by (unfold relation_step; by rewrite Hc).
      destruct (IH idx d Hidx Hnd Hdense) as (H1 & H2 & H3 & H4).
      split_and!; try done. intros k. rewrite H4. split.
      * intros [H|(r & Hr & <-)]; [by left|]. right. exists r.
        split; [by right|done].
      * intros [H|(r & [->|Hr]%elem_of_cons & <-)]; [by left| |].
        -- left. by apply bool_decide_eq_true in Hc.
        -- right. by exists r.
    + assert (relation_step (idx, d) x =
              (idx + 1, d ++ [(remove_dash x, "RELATION" +:+ str (idx + 1))]))
        as -> by (unfold relation_step, setdefault; by rewrite Hc).
      apply bool_decide_eq_false in Hc.
      destruct (IH (idx + 1) (d ++ [(remove_dash x, "RELATION" +:+ str (idx + 1))]))
        as (H1 & H2 & H3 & H4).
      * rewrite length_app. simpl. lia.
      * rewrite fmap_app. apply NoDup_app. split; [done|]. split.
        -- intros y Hy [->|[]%not_elem_of_nil]%elem_of_cons. done.
        -- apply NoDup_singleton.
      * intros j k v Hj. apply lookup_app_Some in Hj as [Hj|[Hge Hj]].
        -- by eapply Hdense.
        -- destruct (j - length d) as [|n] eqn:Hn; simpl in Hj; [|done].
           injection Hj as <- <-. f_equal. f_equal. lia.
      * split_and!; try done. intros k. rewrite H4, fmap_app, elem_of_app.
        simpl. rewrite list_elem_of_singleton. split.
        -- intros [[H| ->]|(r & Hr & <-)].
           ++ by left.
           ++ right. exists x. split; [left|done].
           ++ right. exists r. split; [by right|done].
        -- intros [H|(r & [->|Hr]%elem_of_cons & <-)].
           ++ by left; left.
           ++ by left; right.
           ++ right. by exists r.
Qed.

(** X10.  The relation mask dictionary numbers without gaps: its keys are
    the relations with every '-' taken out, each once, and the key at place
    j (from 0) has the mask 'RELATION' followed by j+1, so the masks are
    RELATION1 up to RELATIONn for the n different keys. *)
Theorem relation_maskID_dense (relations : list string) :
  NoDup (relation_maskID relations).*1 ∧
  (∀ k, k ∈ (relation_maskID relations).*1 ↔
        ∃ r, r ∈ relations ∧ remove_dash r = k) ∧
  (relation_maskID relations).*2 =
    (λ j, "RELATION" +:+ str (j + 1))
      <$> seq 0 (length (relation_maskID relations)).
Proof.
  unfold relation_maskID. case_bool_decide as Hlen.
  - destruct (relation_fold_spec relations 0 []) as (_ & Hnd & Hdense & Hkeys);
      [done|constructor|by intros j k v; rewrite lookup_nil|].
    cbn zeta in *. split; [done|]. split.
    + intros k. rewrite Hkeys. split; [|by right].
      intros [[]%not_elem_of_nil|H]. done.
    + apply list_eq. intros j. rewrite !list_lookup_fmap.
      destruct (_ !! j) as [[k v]|] eqn:Hj; simpl.
      * rewrite (Hdense j k v Hj).
        rewrite lookup_seq_lt by (by eapply lookup_lt_Some). done.
      * rewrite lookup_seq_ge by (by apply lookup_ge_None). done.
  - destruct relations; [|simpl in Hlen; lia]. simpl. split; [constructor|].
    split; [|done]. intros k. split; [by intros []%not_elem_of_nil|].
    by intros (r & []%not_elem_of_nil & _).
Qed.

Lemma rfind_spec c (s : string) :
  (occurs_char c s = false ∧ rfind c s = (-1)%Z) ∨
  (occurs_char c s = true ∧ (0 ≤ rfind c s)%Z ∧
   ∃ a b, s = a +:+ String c b ∧ occurs_char c b = false ∧
          rfind c s = Z.of_nat (String.length a)).
Proof.
  induction s as [|x s IH]; [by left|]. cbn [rfind occurs_char].
  destruct IH as [[Hocc Hr]|(Hocc & Hr & a & b & -> & Hb & Hra)].
  - rewrite Hr, Hocc. simpl. destruct (decide (x = c)) as [->|Hne].
    + right. rewrite bool_decide_eq_true_2 by done. split; [done|].
      split; [done|]. exists "", s. by repeat split.
    + left. by rewrite bool_decide_eq_false_2.
  - right. rewrite Hocc, orb_true_r.
    destruct (rfind c (a +:+ String c b) =? -1)%Z eqn:E; [lia|].
    split; [done|]. split; [lia|]. exists (String x a), b.
    repeat split; try done. rewrite Hra. simpl. lia.
Qed.

Lemma string_drop_after c (a b : string) :
  string_drop (String.length a + 1) (a +:+ String c b) = b.
Proof. induction a as [|x a IH]; simpl; [done|exact IH]. Qed.

(** X11.  The id [load_qadata] cuts out of a directory name is what follows
    the last underscore: it holds no underscore, the whole name is the id
    when the name has no underscore, and before the id the name is empty or
    ends with an underscore. *)
Theorem qa_id_after_last_underscore (root : string) :
  occurs_char "_" (qa_id root) = false ∧
  (occurs_char "_" root = false ∧ qa_id root = root ∨
   ∃ a, root = a +:+ String "_" (qa_id root)).
Proof.
  unfold qa_id.
  destruct (rfind_spec "_" root) as [[Hocc Hr]|(Hocc & Hr & a & b & -> & Hb & Hra)].
  - rewrite Hr. simpl. split; [done|]. by left.
  - rewrite Hra.
    replace (Z.to_nat (Z.of_nat (String.length a) + 1))
      with (String.length a + 1) by lia.
    rewrite string_drop_after. split; [done|]. right. by exists a.
Qed.

End GenerateTest2Facts.

(** * Properties of kl_divergence and surrogate_loss *)

Section TrpoLossesFacts.
Context `{P : Policy}.
Import TrpoLosses.

Lemma surrogate_fold_lengths items : ∀ st st',
  for_result surrogate_loss_turn st items = Ok st' →
  length st'.1.1 = length st.1.1 + length items ∧
  length st'.1.2 = length st.1.2 + length items ∧
  length st'.2 = length st.2 + length items.
Proof.
  induction items as [|[[tr va] old] items IH]; intros st st' H.
  - injection H as <-. cbn [length]. lia.
  - cbn [for_result] in H. destruct st as [[losses kls] pis].
    unfold surrogate_loss_turn in H.
    destruct (self_adapt tr) as [params|e]; [|discriminate].
    apply IH in H as (H1 & H2 & H3). cbn in H1, H2, H3.
    rewrite !length_app in H1, H2, H3. cbn in *. lia.
Qed.

Lemma kl_fold_length items : ∀ kls kls',
  for_result kl_divergence_turn kls items = Ok kls' →
  length kls' = length kls + length items.
Proof.
  induction items as [|[[tr va] old] items IH]; intros kls kls' H.
  - injection H as <-. cbn. lia.
  - cbn [for_result] in H. unfold kl_divergence_turn in H.
    destruct (self_adapt tr) as [params|e]; [|discriminate].
    apply IH in H. rewrite length_app in H. cbn in *. lia.
Qed.

(** Without it the first turn does. *)
Lemma folds_raise_without_adapt
    (items : list (BatchEpisodes * BatchEpisodes * option Dist)) st kls :
  adapt_defined = false → items ≠ [] →
  for_result surrogate_loss_turn st items = Raise AttributeError ∧
  for_result kl_divergence_turn kls items = Raise AttributeError.
Proof.
  intros Hdef Hne. destruct items as [|[[tr va] old] items]; [done|].
  cbn [for_result]. destruct st as [[losses kls0] pis].
  assert (surrogate_loss_turn (losses, kls0, pis) (tr, va, old)
            = Raise AttributeError) as ->.
  { unfold surrogate_loss_turn, self_adapt. by rewrite Hdef. }
  assert (kl_divergence_turn kls (tr, va, old) = Raise AttributeError) as ->.
  { unfold kl_divergence_turn, self_adapt. by rewrite Hdef. }
  done.
Qed.

Lemma surrogate_fold_fresh (episodes : list (BatchEpisodes * BatchEpisodes)) :
  ∀ losses kls pis,
  adapt_defined = true →
  ∃ losses' kls' pis',
    for_result surrogate_loss_turn (losses, kls, pis)
      (zip episodes (replicate (length episodes) None))
      = Ok (losses', kls', pis') ∧
    for_result kl_divergence_turn kls
      (zip episodes (replicate (length episodes) None)) = Ok kls' ∧
    pis' = pis ++ (fresh_pi <$> episodes).
Proof.
  induction episodes as [|[tr va] episodes IH]; intros losses kls pis Hdef.
  - exists losses, kls, pis. cbn. by rewrite app_nil_r.
  - cbn [length replicate zip zip_with for_result].
    destruct (surrogate_loss_turn (losses, kls, pis) (tr, va, None))
      as [[[l1 k1] p1]|e] eqn:Hs;
      unfold surrogate_loss_turn, self_adapt in Hs; rewrite Hdef in Hs;
      [|discriminate].
    destruct (kl_divergence_turn kls (tr, va, None)) as [k2|e] eqn:Hk;
      unfold kl_divergence_turn, self_adapt in Hk; rewrite Hdef in Hk;
      [|discriminate].
    injection Hs as <- <- <-. injection Hk as <-.
    match goal with
    | |- context [for_result surrogate_loss_turn (?a, ?b, ?c) _] =>
        destruct (IH a b c Hdef) as (l' & k' & p' & H1 & H2 & H3)
    end.
    exists l', k', p'. split; [exact H1|]. split; [exact H2|].
    rewrite H3. by rewrite <- (assoc_L (++)).
Qed.

Lemma mean_of_stack_Ok (l : list PTensor) :
  0 < length l → mean_of_stack l = Ok (p_mean (p_stack l 0)).
Proof. destruct l; cbn; [lia | done]. Qed.

Lemma mean_of_stack_nil (l : list PTensor) :
  length l = 0 → mean_of_stack l = Raise RuntimeError.
Proof. by destruct l. Qed.

Lemma zipped_length (episodes : list (BatchEpisodes * BatchEpisodes)) old_pis :
  length (zip episodes (old_pis_or_nones episodes old_pis))
    = match old_pis with
      | None => length episodes
      | Some l => length episodes `min` length l
      end.
Proof.
  rewrite length_zip. destruct old_pis as [l|]; cbn; [done|].
  rewrite length_replicate. lia.
Qed.

(** X12.  When there is nothing to loop over (no episodes, or an empty list
    of old policies) both methods raise RuntimeError: the stack of no
    tensors.  On every other input a learner of the class as the file has
    it, with no method [adapt], raises AttributeError in the first turn of
    the loop: as it stands, neither method returns. *)
Theorem losses_never_return_without_adapt
    (episodes : list (BatchEpisodes * BatchEpisodes))
    (old_pis : option (list (option Dist))) :
  ((episodes = [] ∨ old_pis = Some []) →
     surrogate_loss episodes old_pis = Raise RuntimeError ∧
     kl_divergence episodes old_pis = Raise RuntimeError) ∧
  (adapt_defined = false → episodes ≠ [] → old_pis ≠ Some [] →
     surrogate_loss episodes old_pis = Raise AttributeError ∧
     kl_divergence episodes old_pis = Raise AttributeError).
Proof.
  pose proof (zipped_length episodes old_pis) as Hlen.
  unfold surrogate_loss, kl_divergence. split.
  - intros Hempty.
    assert (zip episodes (old_pis_or_nones episodes old_pis) = []) as ->.
    { apply length_zero_iff_nil. rewrite Hlen.
      destruct Hempty as [-> | ->]; [destruct old_pis|]; cbn [length]; lia. }
    done.
  - intros Hdef He Ho.
    assert (zip episodes (old_pis_or_nones episodes old_pis) ≠ []) as Hz.
    { intros Hz%length_zero_iff_nil. rewrite Hlen in Hz.
      destruct episodes; [done|].
      destruct old_pis as [[|]|]; [done | |]; cbn [length] in Hz; lia. }
    destruct (folds_raise_without_adapt _ ([], [], []) [] Hdef Hz) as [-> ->].
    done.
Qed.

(** X13.  When [surrogate_loss] returns, it returns one detached policy per
    zipped pair: as many as there are episodes when no old policies were
    given, and only as many as the shorter list otherwise (the episodes past
    the end of [old_pis] are left out without an error).  With no old policies
    given, the returned policies are the detached policies of the episodes in
    order. *)
Theorem surrogate_loss_one_policy_per_pair
    (episodes : list (BatchEpisodes * BatchEpisodes))
    (old_pis : option (list (option Dist))) loss kl pis :
  surrogate_loss episodes old_pis = Ok (loss, kl, pis) →
  length pis = match old_pis with
               | None => length episodes
               | Some l => length episodes `min` length l
               end ∧
  (old_pis = None → pis = fresh_pi <$> episodes).
Proof.
  intros Hrun.
  pose proof (zipped_length episodes old_pis) as Hlen.
  unfold surrogate_loss in Hrun.
  destruct (for_result surrogate_loss_turn _ _)
    as [[[losses kls] pis0]|e] eqn:Hfold; [|discriminate].
  destruct (mean_of_stack losses) eqn:Hl; [|discriminate].
  destruct (mean_of_stack kls); [|discriminate].
  injection Hrun as _ _ <-.
  destruct (surrogate_fold_lengths _ _ _ Hfold) as (L1 & _ & L3).
  cbn in L1, L3. split; [by rewrite L3, Hlen|].
  intros ->. cbn [old_pis_or_nones] in *.
  destruct adapt_defined eqn:Hdef.
  - destruct (surrogate_fold_fresh episodes [] [] [] Hdef)
      as (l' & k' & p' & H1 & _ & H3).
    rewrite H1 in Hfold. injection Hfold as _ _ <-. exact H3.
  - destruct episodes as [|ep episodes].
    + cbn in Hfold. injection Hfold as <- _ _. discriminate Hl.
    + destruct (folds_raise_without_adapt
                  (zip (ep :: episodes)
                     (replicate (length (ep :: episodes)) None))
                  ([], [], []) [] Hdef) as [Hr _]; [done|].
      rewrite Hr in Hfold. discriminate Hfold.
Qed.

(** X14.  Called with no old policies, [kl_divergence] gives the KL term of
    [surrogate_loss] on the same episodes, and raises where it raises. *)
Theorem kl_divergence_is_surrogate_kl
    (episodes : list (BatchEpisodes * BatchEpisodes)) :
  kl_divergence episodes None
    = match surrogate_loss episodes None with
      | Ok (_, kl, _) => Ok kl
      | Raise e => Raise e
      end.
Proof.
  unfold surrogate_loss, kl_divergence. cbn [old_pis_or_nones].
  destruct adapt_defined eqn:Hdef.
  - destruct (surrogate_fold_fresh episodes [] [] [] Hdef)
      as (losses & kls & pis & H1 & H2 & _).
    rewrite H1, H2.
    destruct (surrogate_fold_lengths _ _ _ H1) as (L1 & L2 & _).
    cbn in L1, L2.
    destruct losses as [|l losses], kls as [|k kls]; cbn in *; try done; lia.
  - destruct episodes as [|ep episodes]; [done|].
    destruct (folds_raise_without_adapt
                (zip (ep :: episodes)
                   (replicate (length (ep :: episodes)) None))
                ([], [], []) [] Hdef) as [-> ->]; done.
Qed.

End TrpoLossesFacts.

(** * The runs behind the further properties *)

Section MoreWitnesses.
Import Sym.

(** A parameter on the CPU that requires grad, a learner on the GPU: the
    entry of the derived mapping is the copy on the GPU. *)
Lemma inner_loop_dict_copies_across_devices_witness :
  ∃ r w' d,
    get_inner_loop_parameter_dict (learner 3)
      [("w", Leaf "w" Cpu true); ("e", Leaf "e" Cuda false)] world0
      = Ok (r, w') ∧
    w_heap w' !! r = Some d ∧
    d !! "w" = Some (Copy Cuda (Leaf "w" Cpu true)).
Proof.
  destruct (inner_loop_dict_copies_across_devices (Sub:=substrate) (learner 3)
              [("w", Leaf "w" Cpu true); ("e", Leaf "e" Cuda false)] world0
              "w" (Leaf "w" Cpu true))
    as (r & w' & d & Hrun & Hd & Hcopy & _).
  - apply (bool_decide_unpack _). vm_compute. exact I.
  - apply (bool_decide_unpack _). vm_compute. exact I.
  - exists r, w', d. split; [exact Hrun|]. split; [exact Hd|].
    apply Hcopy; [reflexivity|discriminate].
Defined.

(** One example, three decodes, one of them a repeat. *)
Lemma inner_loss_counts_witness :
  ∃ loss w' (input_batch : list (list Z)),
    inner_loss (learner 3) [5%Z] None world0 = Ok ((loss, 3, 1), w') ∧
    3 = length input_batch * Z.to_nat (samples (learner 3)) ∧
    1 ≤ length input_batch * (Z.to_nat (samples (learner 3)) - 1) ∧
    w_heap w' = w_heap world0.
Proof.
  destruct (inner_loss_returns_true
              (inner_loss (Sub:=substrate) (learner 3) [5%Z] None world0) 3 1 0)
    as (loss & w' & Hrun & _); [vm_compute; reflexivity|].
  destruct (inner_loss_counts (Sub:=substrate) _ _ _ _ _ _ _ _ Hrun)
    as (ib & ob & ctx & enc & beg & w1 & _ & Ht & Hs & Hh).
  exists loss, w', ib. split; [exact Hrun|]. split; [exact Ht|].
  split; [exact Hs | exact Hh].
Defined.

(** The same run: decodes were drawn, so the loss is a tensor. *)
Lemma inner_loss_float_iff_no_decode_witness :
  ∃ loss w' t,
    inner_loss (learner 3) [5%Z] None world0 = Ok ((loss, 3, 1), w') ∧
    loss = PyTensor t ∧ w_log w' = w_log world0.
Proof.
  destruct (inner_loss_returns_true
              (inner_loss (Sub:=substrate) (learner 3) [5%Z] None world0) 3 1 0)
    as (loss & w' & Hrun & _); [vm_compute; reflexivity|].
  destruct (inner_loss_float_iff_no_decode (Sub:=substrate) _ _ _ _ _ _ _ _ Hrun)
    as [(H0 & _)|(_ & _ & [t Ht] & Hlog)]; [discriminate H0|].
  exists loss, w', t. split; [exact Hrun|]. split; [exact Ht | exact Hlog].
Defined.

(** A learner that asks for no decode. *)
Lemma sample_without_decodes_never_returns_witness :
  sample (learner 0) [[5%Z]] false world0
    ≠ Ok ((Lit "loss" [], 0, 0), world0).
Proof.
  apply (sample_without_decodes_never_returns (Sub:=substrate) (learner 0)
           [[5%Z]] false world0).
  vm_compute. discriminate.
Defined.

(** One pair of episodes and a learner without [adapt]. *)
Lemma losses_never_return_without_adapt_witness :
  TrpoLosses.surrogate_loss (P:=PolicyZ.policy_as_shipped) [(1, 2)]%Z None
    = Raise AttributeError ∧
  TrpoLosses.kl_divergence (P:=PolicyZ.policy_as_shipped) [(1, 2)]%Z None
    = Raise AttributeError.
Proof.
  apply (proj2 (losses_never_return_without_adapt
                  (P:=PolicyZ.policy_as_shipped) [(1, 2)]%Z None));
    [reflexivity | discriminate | discriminate].
Defined.

(** Three episode pairs and two old policies: two detached policies come
    back, the third pair is not evaluated. *)
Lemma surrogate_loss_one_policy_per_pair_witness :
  ∃ loss kl pis,
    TrpoLosses.surrogate_loss (P:=PolicyZ.policy_z)
      [(1, 2); (3, 4); (5, 6)]%Z (Some [None; Some 0%Z])
      = Ok (loss, kl, pis) ∧
    length pis = 2.
Proof.
  eexists _, _, _. split; [reflexivity|].
  exact (proj1 (surrogate_loss_one_policy_per_pair (P:=PolicyZ.policy_z)
                  [(1, 2); (3, 4); (5, 6)]%Z (Some [None; Some 0%Z])
                  _ _ _ eq_refl)).
Defined.

End MoreWitnesses.
